(** * BioPortal annotator: the match classifier and the annotation driver

    A shallow embedding of [bioportal_annotator.py].

    Strings.  A Python [str] is modelled as a [string] whose characters are
    the code points U+0000..U+00FF (one [ascii] per code point).  The tables
    for [str.lower], [str.strip], [str.splitlines] and the regular
    expression class [\w] are CPython's, restricted to that range.

    Effects.  [annotate_terms] reads a file, opens the output table, issues
    HTTP requests, prints and may raise.  It is embedded in a small state and
    error monad whose state is the trace of the events performed so far; the
    file system and the remote service are an explicit environment. *)

From Stdlib Require Import ZArith NArith Ascii String Bool Lia.
From stdpp Require Import base gmap strings list.

Set Warnings "-register-all".

(** ** Results of fallible code *)

Inductive exn : Type :=
  | FileNotFoundError
  | OSError
  | ValueError (msg : string)
  | KeyError
  | IndexError
  | TypeError
  | AttributeError
  | JSONDecodeError
  | ReError.

Inductive result (A : Type) : Type :=
  | Ok (a : A)
  | Raise (e : exn).
Arguments Ok {A} a.
Arguments Raise {A} e.

(** ** Python string primitives on code points U+0000..U+00FF *)

Module Py.

#[local] Open Scope N_scope.

Definition code (c : ascii) : N := N_of_ascii c.

Definition in_range (lo hi : N) (c : ascii) : bool :=
  (lo <=? code c) && (code c <=? hi).

Definition is_code (n : N) (c : ascii) : bool := code c =? n.

(** [str.isspace] per character: what [str.strip()] removes. *)
Definition is_space (c : ascii) : bool :=
  in_range 9 13 c || in_range 28 32 c || is_code 133 c || is_code 160 c.

(** Line boundaries of [str.splitlines()]. *)
Definition is_linebreak (c : ascii) : bool :=
  in_range 10 13 c || in_range 28 30 c || is_code 133 c.

(** The class [\w] of [re] on [str] patterns: alphanumeric or underscore. *)
Definition is_word (c : ascii) : bool :=
  in_range 48 57 c || in_range 65 90 c || is_code 95 c || in_range 97 122 c
  || is_code 170 c || in_range 178 179 c || is_code 181 c
  || in_range 185 186 c || in_range 188 190 c
  || in_range 192 214 c || in_range 216 246 c || in_range 248 255 c.

Definition is_upper (c : ascii) : bool :=
  in_range 65 90 c || in_range 192 214 c || in_range 216 222 c.

Definition lower_char (c : ascii) : ascii :=
  if is_upper c then ascii_of_N (code c + 32) else c.

(** [s.lower()] *)
Fixpoint lower (s : string) : string :=
  match s with
  | EmptyString => EmptyString
  | String c r => String (lower_char c) (lower r)
  end.

(** [c in s] for a single character [c] *)
Fixpoint contains_char (c : ascii) (s : string) : bool :=
  match s with
  | EmptyString => false
  | String d r => Ascii.eqb c d || contains_char c r
  end.

Fixpoint startswith (p s : string) : bool :=
  match p, s with
  | EmptyString, _ => true
  | String _ _, EmptyString => false
  | String a p', String b s' => Ascii.eqb a b && startswith p' s'
  end.

(** [p in s]: [p] is a contiguous substring of [s]. *)
Fixpoint contains (p s : string) : bool :=
  startswith p s ||
  match s with
  | EmptyString => false
  | String _ r => contains p r
  end.

Fixpoint lstrip (s : string) : string :=
  match s with
  | EmptyString => EmptyString
  | String c r => if is_space c then lstrip r else s
  end.

Fixpoint rstrip (s : string) : string :=
  match s with
  | EmptyString => EmptyString
  | String c r =>
      match rstrip r with
      | EmptyString => if is_space c then EmptyString else String c EmptyString
      | r' => String c r'
      end
  end.

(** [s.strip()] *)
Definition strip (s : string) : string := rstrip (lstrip s).

(** Truth value of a [str]: non-empty. *)
Definition truthy (s : string) : bool :=
  match s with EmptyString => false | String _ _ => true end.

(** [s.split(sep)] for a one-character separator: never returns [[]]. *)
Fixpoint split (sep : ascii) (s : string) : list string :=
  match s with
  | EmptyString => [EmptyString]
  | String c r =>
      if Ascii.eqb c sep then EmptyString :: split sep r
      else match split sep r with
           | h :: t => String c h :: t
           | [] => [String c EmptyString]
           end
  end.

(** [s.splitlines()]: [cur] is the line being read, reversed. A carriage
    return followed by a line feed is one boundary; a final boundary opens
    no empty last line. *)
Fixpoint splitlines_go (cur : string) (s : string) : list string :=
  match s with
  | EmptyString =>
      match cur with EmptyString => [] | _ => [String.rev cur] end
  | String c r =>
      if is_linebreak c then
        String.rev cur ::
          (if is_code 13 c then
             match r with
             | String d r' =>
                 if is_code 10 d then splitlines_go EmptyString r'
                 else splitlines_go EmptyString r
             | EmptyString => []
             end
           else splitlines_go EmptyString r)
      else splitlines_go (String c cur) r
  end.

Definition splitlines (s : string) : list string := splitlines_go EmptyString s.

(** [str(b).lower()] for a [bool] *)
Definition str_bool_lower (b : bool) : string :=
  if b then "true" else "false".

End Py.

(** ** The fragment of [re] that [get_completeness] uses *)

Module Re.

#[local] Open Scope N_scope.

(** [re.escape]: a backslash before each of
    [()[]{}?*+-|^$\.&~#], space, tab, newline, carriage return, vertical
    tab and form feed. *)
Definition is_special (c : ascii) : bool :=
  Py.in_range 9 13 c || Py.is_code 32 c || Py.is_code 35 c || Py.is_code 36 c
  || Py.is_code 38 c || Py.in_range 40 43 c || Py.in_range 45 46 c
  || Py.is_code 63 c || Py.in_range 91 94 c || Py.in_range 123 126 c.

Definition backslash : ascii := ascii_of_N 92.

Fixpoint escape (s : string) : string :=
  match s with
  | EmptyString => EmptyString
  | String c r =>
      if is_special c then String backslash (String c (escape r))
      else String c (escape r)
  end.

(** Compiled patterns of the fragment: literal characters and [\b]. *)
Inductive tok : Type :=
  | TBoundary
  | TLit (c : ascii).

(** Characters that are operators when they stand unescaped. *)
Definition is_meta (c : ascii) : bool :=
  Py.is_code 36 c || Py.in_range 40 43 c || Py.is_code 46 c || Py.is_code 63 c
  || Py.in_range 91 94 c || Py.in_range 123 125 c.

Definition is_ascii_alnum (c : ascii) : bool :=
  Py.in_range 48 57 c || Py.in_range 65 90 c || Py.in_range 97 122 c.

(** [re.compile] on the fragment. A backslash before a character that is
    not an ASCII letter or digit denotes that character; [\b] is the word
    boundary; every other pattern (an operator, another letter escape, a
    trailing backslash) is outside the fragment and reported as [ReError]. *)
Fixpoint compile (p : string) : result (list tok) :=
  match p with
  | EmptyString => Ok []
  | String c r =>
      if Ascii.eqb c backslash then
        match r with
        | EmptyString => Raise ReError
        | String d r' =>
            if Py.is_code 98 d then
              match compile r' with
              | Ok ts => Ok (TBoundary :: ts)
              | Raise e => Raise e
              end
            else if is_ascii_alnum d then Raise ReError
            else
              match compile r' with
              | Ok ts => Ok (TLit d :: ts)
              | Raise e => Raise e
              end
        end
      else if is_meta c then Raise ReError
      else
        match compile r with
        | Ok ts => Ok (TLit c :: ts)
        | Raise e => Raise e
        end
  end.

Definition word_opt (o : option ascii) : bool :=
  match o with Some c => Py.is_word c | None => false end.

Definition head (s : string) : option ascii :=
  match s with EmptyString => None | String c _ => Some c end.

(** [\b] between the character [prev] just read (if any) and the rest of
    the subject: exactly one side is a word character. *)
Definition at_boundary (prev : option ascii) (rest : string) : bool :=
  xorb (word_opt prev) (word_opt (head rest)).

(** Match the tokens at the current position. *)
Fixpoint match_here (ts : list tok) (prev : option ascii) (rest : string) : bool :=
  match ts with
  | [] => true
  | TBoundary :: ts' => at_boundary prev rest && match_here ts' prev rest
  | TLit c :: ts' =>
      match rest with
      | EmptyString => false
      | String d r => Ascii.eqb c d && match_here ts' (Some d) r
      end
  end.

(** Try every start position, left to right. *)
Fixpoint search_from (ts : list tok) (prev : option ascii) (s : string) : bool :=
  match_here ts prev s ||
  match s with
  | EmptyString => false
  | String d r => search_from ts (Some d) r
  end.

(** Truth value of [re.search(pattern, s)]. *)
Definition search (pattern s : string) : result bool :=
  match compile pattern with
  | Ok ts => Ok (search_from ts None s)
  | Raise e => Raise e
  end.

End Re.

(** ** The match classifier *)

Definition Complete : string := "Complete".
Definition Component : string := "Component".
Definition Partial : string := "Partial".
(** The value returned for an irrelevant match. *)
Definition Uninformative : string := "".

Definition get_completeness (input_term match_label : string) : result string :=
  let t_norm := Py.lower input_term in
  let l_norm := Py.lower match_label in
  if String.eqb t_norm l_norm then Ok Complete
  else if Py.contains_char " " l_norm && Py.contains l_norm t_norm then Ok Component
  else
    match Re.search (String Re.backslash (String "b" (Re.escape l_norm +:+ String Re.backslash "b"))) t_norm with
    | Raise e => Raise e
    | Ok true => Ok Partial
    | Ok false => Ok Uninformative
    end.

(** ** What the specification says about occurrences

    These definitions follow the specification's words; the theorems below
    compare them with what the classifier computes. *)

Module Spec.

(** The last character of [s], or [prev] when [s] is empty. *)
Fixpoint last_char (prev : option ascii) (s : string) : option ascii :=
  match s with
  | EmptyString => prev
  | String c r => last_char (Some c) r
  end.

(** A word boundary lies between the adjacent pieces [a] and [b] of a
    string: exactly one of the two characters at the cut is a word
    character (a missing character counts as a non-word character). *)
Definition boundary_between (a b : string) : bool :=
  Re.at_boundary (last_char None a) b.

(** [l] occurs in [t] as a contiguous substring. *)
Definition occurs_in (l t : string) : Prop :=
  ∃ pre post, t = pre +:+ l +:+ post.

(** The occurrence of [l] between [pre] and [post] is bounded by word
    boundaries on both sides. *)
Definition bounded (pre l post : string) : Prop :=
  boundary_between pre (l +:+ post) = true ∧
  boundary_between (pre +:+ l) post = true.

(** [l] occurs in [t] bounded by word boundaries. *)
Definition bounded_occurrence (l t : string) : Prop :=
  ∃ pre post, t = pre +:+ l +:+ post ∧ bounded pre l post.

(** [l] has a word boundary strictly inside it. *)
Definition internal_boundary (l : string) : Prop :=
  ∃ a b, l = a +:+ b ∧ a ≠ "" ∧ b ≠ "" ∧ boundary_between a b = true.

(** Some character of [s] is a word character. *)
Fixpoint has_word (s : string) : bool :=
  match s with
  | EmptyString => false
  | String c r => Py.is_word c || has_word r
  end.

(** The pieces, glued back with the separator between them. *)
Fixpoint join (sep : ascii) (pieces : list string) : string :=
  match pieces with
  | [] => ""
  | x :: rest =>
      match rest with
      | [] => x
      | _ => x +:+ String sep (join sep rest)
      end
  end.

Fixpoint all_space (s : string) : bool :=
  match s with
  | EmptyString => true
  | String c r => Py.is_space c && all_space r
  end.

Definition space_opt (o : option ascii) : bool :=
  match o with Some c => Py.is_space c | None => false end.

(** [q] is [p] trimmed: [p] without its leading and trailing whitespace. *)
Definition trimmed_form (p q : string) : Prop :=
  ∃ a b, p = a +:+ q +:+ b ∧ all_space a = true ∧ all_space b = true ∧
         space_opt (Re.head q) = false ∧ space_opt (last_char None q) = false.

End Spec.

(** ** Input loading and scope normalisation *)

(** A file system seen through [Path.read_text]: [None] when the file does
    not exist. *)
Definition load_terms (read_text : string → option string) (term_path : string)
  : result (list string) :=
  match read_text term_path with
  | None => Raise FileNotFoundError
  | Some text =>
      Ok (map Py.strip
            (filter (λ term, Is_true (Py.truthy (Py.strip term))) (Py.splitlines text)))
  end.

Definition normalize_ontologies (ontologies : string) : list string :=
  match map Py.strip
          (filter (λ o, Is_true (Py.truthy (Py.strip o))) (Py.split "," ontologies)) with
  | [] => [""]
  | l => l
  end.

(** ** Parsed JSON values, as [response.json()] returns them *)

Inductive json : Type :=
  | JNull
  | JBool (b : bool)
  | JNum (n : Z)
  | JStr (s : string)
  | JArr (items : list json)
  | JObj (fields : list (string * json)).

Module Json.

(** [d[k]] on a [dict] held as its items. *)
Fixpoint dict_get (k : string) (fields : list (string * json)) : option json :=
  match fields with
  | [] => None
  | (k', v) :: rest => if String.eqb k k' then Some v else dict_get k rest
  end.

(** [j[key]] for a [str] key. *)
Definition getitem (key : string) (j : json) : result json :=
  match j with
  | JObj fields =>
      match dict_get key fields with
      | Some v => Ok v
      | None => Raise KeyError
      end
  | _ => Raise TypeError
  end.

(** [j[0]]: the keys of a parsed JSON object are all [str]. *)
Definition getitem0 (j : json) : result json :=
  match j with
  | JArr (x :: _) => Ok x
  | JArr [] => Raise IndexError
  | JStr (String c _) => Ok (JStr (String c EmptyString))
  | JStr EmptyString => Raise IndexError
  | JObj _ => Raise KeyError
  | _ => Raise TypeError
  end.

Fixpoint chars (s : string) : list json :=
  match s with
  | EmptyString => []
  | String c r => JStr (String c EmptyString) :: chars r
  end.

(** The values [for x in j] runs through. *)
Definition iter (j : json) : result (list json) :=
  match j with
  | JArr items => Ok items
  | JObj fields => Ok (map (λ kv, JStr (fst kv)) fields)
  | JStr s => Ok (chars s)
  | _ => Raise TypeError
  end.

(** [j.lower] exists only on a [str]. *)
Definition as_str (j : json) : result string :=
  match j with
  | JStr s => Ok s
  | _ => Raise AttributeError
  end.

End Json.

(** ** The driver's world: events, environment, monad *)

Record row : Type := Row {
  row_term : string;
  row_match : string;
  row_completeness : string;
  row_ontology : string;
  row_iri : json
}.

(** What [requests.get] followed by [raise_for_status] can catch. *)
Inductive request_exception : Type :=
  | ConnectionFailure
  | HTTPError (status : Z).

(** What [requests.get] does: raise, or return a response whose body may or
    may not decode as JSON. *)
Inductive outcome : Type :=
  | Failed
  | Response (status : Z) (body : option json).

Inductive event : Type :=
  | EOpen (path : string)
  | EWriteRow (r : row)
  | EGet (url : string) (params : gmap string string) (timeout : Z) (o : outcome)
  | EWarn (exc : request_exception) (term : string) (ontology : string)
  | EClose (path : string)
  | EPrint (msg : string).

Record env : Type := Env {
  read_text : string → option string;
  can_open : string → bool;
  (** the service may answer as it likes, knowing all that happened before *)
  service : list event → string → gmap string string → Z → outcome
}.

(** A computation extends the trace and returns or raises. *)
Definition M (A : Type) : Type := list event → list event * result A.

#[global] Instance M_ret : MRet M := λ A a tr, (tr, Ok a).

#[global] Instance M_bind : MBind M := λ A B f m tr,
  match m tr with
  | (tr', Ok a) => f a tr'
  | (tr', Raise e) => (tr', Raise e)
  end.

Definition lift {A : Type} (r : result A) : M A := λ tr, (tr, r).

Definition emit (e : event) : M unit := λ tr, (tr ++ [e], Ok tt).

Definition run {A : Type} (m : M A) : list event * result A := m [].

(** [for x in l: body x] *)
Fixpoint for_each {A : Type} (body : A → M unit) (l : list A) : M unit :=
  match l with
  | [] => mret tt
  | x :: rest => body x ;; for_each body rest
  end.

(** [with open(path, "w") as fout: body]: the file is closed on every way
    out of the body. *)
Definition with_open (E : env) (path : string) (body : M unit) : M unit := λ tr,
  if can_open E path then
    match body (tr ++ [EOpen path]) with
    | (tr', r) => (tr' ++ [EClose path], r)
    end
  else (tr, Raise OSError).

(** [requests.get(url, params=params, timeout=timeout)] *)
Definition requests_get (E : env) (url : string) (params : gmap string string)
    (timeout : Z) : M outcome := λ tr,
  let o := service E tr url params timeout in
  (tr ++ [EGet url params timeout o], Ok o).

(** [response.raise_for_status()] raises on the 4xx and 5xx statuses. *)
Definition is_error_status (status : Z) : bool :=
  ((400 <=? status) && (status <? 600))%Z.

(** ** The annotation driver *)

Record options : Type := Options {
  include_synonyms : bool;
  whole_word_only : bool;
  longest_only : bool;
  direct_matches_only : bool;
  require_complete_match : bool;
  timeout : Z
}.

Definition default_options : options :=
  Options true false true true false 30.

Definition base_url : string := "https://data.bioontology.org/annotator".

Definition header : row := Row "Term" "Match" "Completeness" "Ontology" (JStr "IRI").

(** [ont or "ALL"] *)
Definition or_ALL (ont : string) : string :=
  if Py.truthy ont then ont else "ALL".

Definition build_params (api_key term ont : string) (o : options)
  : gmap string string :=
  let params : gmap string string :=
    <["longest_only" := Py.str_bool_lower (longest_only o)]>
    (<["whole_word_only" := Py.str_bool_lower (whole_word_only o)]>
    (<["exclude_synonyms" := Py.str_bool_lower (negb (include_synonyms o))]>
    (<["text" := term]>
    (<["apikey" := api_key]> ∅)))) in
  let params :=
    if Py.truthy ont then <["ontologies" := ont]> params else params in
  if direct_matches_only o then
    <["class_hierarchy_max_level" := "0"]>
      (<["expand_class_hierarchy" := "false"]> params)
  else params.

(** The body of [for annotation in response.json()]. *)
Definition handle_annotation (o : options) (term ont : string) (annotation : json)
  : M unit :=
  label ← lift (match Json.getitem "annotations" annotation with
                | Ok a => match Json.getitem0 a with
                          | Ok a0 => Json.getitem "text" a0
                          | Raise e => Raise e
                          end
                | Raise e => Raise e
                end);
  iri ← lift (match Json.getitem "annotatedClass" annotation with
              | Ok c => Json.getitem "@id" c
              | Raise e => Raise e
              end);
  (* [match_label.lower()] inside [get_completeness] needs a [str] *)
  l ← lift (Json.as_str label);
  completeness ← lift (get_completeness term l);
  if negb (Py.truthy completeness) then mret tt
  else if require_complete_match o && negb (String.eqb completeness Complete)
  then mret tt
  else emit (EWriteRow (Row term l completeness (or_ALL ont) iri)).

(** The body of [for ont in onto_list]. *)
Definition annotate_pair (E : env) (api_key : string) (o : options)
    (term ont : string) : M unit :=
  let params := build_params api_key term ont o in
  response ← requests_get E base_url params (timeout o);
  match response with
  | Failed => emit (EWarn ConnectionFailure term (or_ALL ont))
  | Response status body =>
      if is_error_status status
      then emit (EWarn (HTTPError status) term (or_ALL ont))
      else
        match body with
        | None => lift (Raise JSONDecodeError)
        | Some j =>
            annotations ← lift (Json.iter j);
            for_each (handle_annotation o term ont) annotations
        end
  end.

Definition annotate_terms (E : env) (api_key term_path ontologies out_path : string)
    (o : options) : M unit :=
  terms ← lift (load_terms (read_text E) term_path);
  match terms with
  | [] => lift (Raise (ValueError "Input term list is empty."))
  | _ =>
      let onto_list := normalize_ontologies ontologies in
      with_open E out_path
        (emit (EWriteRow header) ;;
         for_each (λ term,
             for_each (annotate_pair E api_key o term) onto_list) terms) ;;
      emit (EPrint ("Results saved to " +:+ out_path))
  end.

(** The shape of one item of the service's answer. *)
Definition candidate (label iri : json) : json :=
  JObj [("annotations", JArr [JObj [("text", label)]]);
        ("annotatedClass", JObj [("@id", iri)])].

(** ** Reading traces *)

Module Trace.

(** The label and the identifier of an item that has the expected shape:
    a first annotation with a [text] that is a string, and an
    [annotatedClass] with an [@id]. *)
Definition expected (a : json) : option (string * json) :=
  match a with
  | JObj fields =>
      match Json.dict_get "annotations" fields,
            Json.dict_get "annotatedClass" fields with
      | Some (JArr (JObj first :: _)), Some (JObj cls) =>
          match Json.dict_get "text" first, Json.dict_get "@id" cls with
          | Some (JStr label), Some iri => Some (label, iri)
          | _, _ => None
          end
      | _, _ => None
      end
  | _ => None
  end.

Definition malformed (a : json) : bool :=
  match expected a with Some _ => false | None => true end.

(** A request answered with a success status and a JSON array holding a
    malformed item. *)
Definition bad_get (e : event) : bool :=
  match e with
  | EGet _ _ _ (Response status (Some (JArr items))) =>
      negb (is_error_status status) && existsb malformed items
  | _ => false
  end.

(** The exceptions a failed lookup in a response raises. *)
Definition lookup_exn (e : exn) : Prop :=
  e = KeyError ∨ e = IndexError ∨ e = TypeError ∨ e = AttributeError.

(** A computation started after [tr] appends events [evs] to it and ends
    with [r], the two related by [Q]. *)
Definition extends {A : Type} (Q : list event → result A → Prop) (m : M A) : Prop :=
  ∀ tr, ∃ evs r, m tr = (tr ++ evs, r) ∧ Q evs r.

(** The events end with a request that got a malformed answer, the rows
    written for it, and [suffix]. *)
Inductive ends_at_bad (suffix : list event) : list event → Prop :=
  | bad_here g rows :
      bad_get g = true → ends_at_bad suffix (g :: map EWriteRow rows ++ suffix)
  | bad_later e evs :
      bad_get e = false → ends_at_bad suffix evs → ends_at_bad suffix (e :: evs).

Definition clean (evs : list event) : Prop := Forall (λ e, bad_get e = false) evs.

(** Either no malformed answer was received, or the computation stopped on
    the first one with the exception of the failed lookup. *)
Definition stops_at_bad {A : Type} (suffix : list event) (evs : list event)
    (r : result A) : Prop :=
  clean evs ∨ (ends_at_bad suffix evs ∧ ∃ e, r = Raise e ∧ lookup_exn e).

(** What every data row satisfies. *)
Definition good_row (o : options) (r : row) : Prop :=
  row_completeness r ≠ "" ∧
  row_completeness r ≠ "Uninformative" ∧
  (row_completeness r = Complete ∨ row_completeness r = Component ∨
   row_completeness r = Partial) ∧
  (require_complete_match o = true → row_completeness r = Complete).

(** A data row written for the pair of [term] and [ont]. *)
Definition row_of (o : options) (term ont : string) (r : row) : Prop :=
  good_row o r ∧ row_term r = term ∧ row_ontology r = or_ALL ont.

(** What a pair may append after its request: rows of its own, or the
    warning about its failure. *)
Definition pair_event (o : options) (term ont : string) (e : event) : Prop :=
  (∃ r, e = EWriteRow r ∧ row_of o term ont r) ∨
  (∃ x, e = EWarn x term (or_ALL ont)).

Definition rows_are (P : row → Prop) (e : event) : Prop :=
  ∀ r, e = EWriteRow r → P r.

End Trace.

(** ** Sample worlds *)

Module Sample.

(** One term, [flu]; the service answers every request with one item that
    has no field at all. *)
Definition fieldless : env :=
  Env (λ _, Some "flu") (λ _, true)
      (λ _ _ _ _, Response 200 (Some (JArr [JObj []]))).

(** A term file holding blank lines only. *)
Definition blank : env :=
  Env (λ _, Some "
  
") (λ _, true) (λ _ _ _ _, Failed).

(** One term, [aspirin]; the service answers with one well-shaped item
    carrying [label]. *)
Definition one_candidate (label : string) : env :=
  Env (λ _, Some "aspirin") (λ _, true)
      (λ _ _ _ _, Response 200 (Some (JArr [candidate (JStr label) (JStr "http://x/123")]))).

Definition complete_only : options :=
  Options true false true true true 30.

End Sample.

(** ** Summaries of traces *)

Module Log.








(** The two tests a classified candidate passes before its row is written. *)
Definition keeps (o : options) (c : string) : bool :=
  Py.truthy c && negb (require_complete_match o && negb (String.eqb c Complete)).

Definition with_complete_only (o : options) : options :=
  Options (include_synonyms o) (whole_word_only o) (longest_only o)
          (direct_matches_only o) true (timeout o).

(** Between the header and the closing of the file a run only sends
    requests, writes rows and prints warnings. *)
Definition pair_kind (e : event) : Prop :=
  match e with
  | EGet _ _ _ _ | EWriteRow _ | EWarn _ _ _ => True
  | _ => False
  end.

(** Where a data row comes from. *)
Definition row_from (term ont : string) (r : row) : Prop :=
  row_term r = term ∧ row_ontology r = or_ALL ont ∧
  get_completeness term (row_match r) = Ok (row_completeness r).


End Log.

(** * Properties *)

(** ** Characters *)

Ltac by_cases_on_char c :=
  destruct c as [[] [] [] [] [] [] [] []]; vm_compute; (reflexivity || discriminate || tauto).

Lemma lower_char_word (c : ascii) : Py.is_word (Py.lower_char c) = Py.is_word c.
Proof. by_cases_on_char c. Qed.

Lemma lower_char_space (c : ascii) :
  Ascii.eqb " " (Py.lower_char c) = Ascii.eqb " " c.
Proof. by_cases_on_char c. Qed.

Lemma special_escaped (c : ascii) :
  Re.is_special c = true →
  Py.is_code 98 c = false ∧ Re.is_ascii_alnum c = false.
Proof. generalize c. intros [[] [] [] [] [] [] [] []]; vm_compute; intros; (split; reflexivity) || discriminate. Qed.

Lemma plain_literal (c : ascii) :
  Re.is_special c = false →
  Ascii.eqb c Re.backslash = false ∧ Re.is_meta c = false.
Proof. generalize c. intros [[] [] [] [] [] [] [] []]; vm_compute; intros; (split; reflexivity) || discriminate. Qed.

(** ** Strings *)

Lemma sapp_nil_l (s : string) : "" +:+ s = s.
Proof. reflexivity. Qed.

Lemma sapp_cons (c : ascii) (a b : string) : String c a +:+ b = String c (a +:+ b).
Proof. reflexivity. Qed.

Ltac sapp := rewrite ?sapp_cons, ?sapp_nil_l in *.

Lemma lower_contains_space (s : string) :
  Py.contains_char " " (Py.lower s) = Py.contains_char " " s.
Proof.
  induction s as [|c s IH]; cbn [Py.lower Py.contains_char]; [reflexivity|].
  now rewrite lower_char_space, IH.
Qed.

Lemma lower_has_word (s : string) : Spec.has_word (Py.lower s) = Spec.has_word s.
Proof.
  induction s as [|c s IH]; cbn [Py.lower Spec.has_word]; [reflexivity|].
  now rewrite lower_char_word, IH.
Qed.

Lemma last_char_app (prev : option ascii) (a b : string) :
  Spec.last_char prev (a +:+ b) = Spec.last_char (Spec.last_char prev a) b.
Proof. revert prev. induction a as [|c a IH]; intros prev; sapp; simpl; [reflexivity | apply IH]. Qed.

Lemma startswith_spec (p s : string) :
  Py.startswith p s = true ↔ ∃ post, s = p +:+ post.
Proof.
  revert s. induction p as [|a p IH]; intros s; simpl.
  - split; [intros _; now exists s | reflexivity].
  - destruct s as [|b s].
    + split; [discriminate | intros [post H]; discriminate].
    + rewrite andb_true_iff, IH. split.
      * intros [Hab [post ->]]. apply Ascii.eqb_eq in Hab. subst. now exists post.
      * intros [post H]. sapp. injection H as -> ->.
        split; [apply Ascii.eqb_refl | now exists post].
Qed.

Lemma contains_spec (l t : string) : Py.contains l t = true ↔ Spec.occurs_in l t.
Proof.
  unfold Spec.occurs_in. induction t as [|c t IH]; simpl.
  - rewrite orb_false_r, startswith_spec. split.
    + intros [post H]. now exists "", post.
    + intros [[|x pre] [post H]]; sapp; [now exists post | discriminate].
  - rewrite orb_true_iff, startswith_spec, IH. split.
    + intros [[post H] | [pre [post H]]].
      * now exists "", post.
      * exists (String c pre), post. sapp. now rewrite H.
    + intros [[|x pre] [post H]]; sapp.
      * left. now exists post.
      * right. injection H as -> ->. now exists pre, post.
Qed.

(** ** The pattern built by [get_completeness] always compiles *)

Lemma compile_boundary (r : string) :
  Re.compile (String Re.backslash (String "b" r)) =
  match Re.compile r with
  | Ok ts => Ok (Re.TBoundary :: ts)
  | Raise e => Raise e
  end.
Proof. reflexivity. Qed.

Lemma compile_escaped (d : ascii) (r : string) :
  Py.is_code 98 d = false → Re.is_ascii_alnum d = false →
  Re.compile (String Re.backslash (String d r)) =
  match Re.compile r with
  | Ok ts => Ok (Re.TLit d :: ts)
  | Raise e => Raise e
  end.
Proof.
  intros Hb Ha. cbn [Re.compile].
  change (Ascii.eqb Re.backslash Re.backslash) with true. cbv iota.
  now rewrite Hb, Ha.
Qed.

Lemma compile_plain (c : ascii) (r : string) :
  Ascii.eqb c Re.backslash = false → Re.is_meta c = false →
  Re.compile (String c r) =
  match Re.compile r with
  | Ok ts => Ok (Re.TLit c :: ts)
  | Raise e => Raise e
  end.
Proof. intros Hb Hm. cbn [Re.compile]. now rewrite Hb, Hm. Qed.

Lemma compile_escape (l rest : string) (ts : list Re.tok) :
  Re.compile rest = Ok ts →
  Re.compile (Re.escape l +:+ rest) =
  Ok (map Re.TLit (list_ascii_of_string l) ++ ts).
Proof.
  intros Hrest. induction l as [|c l IH]; cbn [Re.escape list_ascii_of_string map].
  - exact Hrest.
  - destruct (Re.is_special c) eqn:Hs; sapp.
    + destruct (special_escaped c Hs) as [Hb Ha].
      now rewrite (compile_escaped c _ Hb Ha), IH.
    + destruct (plain_literal c Hs) as [Hb Hm].
      now rewrite (compile_plain c _ Hb Hm), IH.
Qed.

Lemma compile_pattern (l : string) :
  Re.compile (String Re.backslash (String "b" (Re.escape l +:+ String Re.backslash "b"))) =
  Ok (Re.TBoundary :: map Re.TLit (list_ascii_of_string l) ++ [Re.TBoundary]).
Proof.
  rewrite compile_boundary.
  now rewrite (compile_escape l _ [Re.TBoundary]).
Qed.

(** ** What the compiled pattern matches *)

Lemma match_lits (l : string) (ts : list Re.tok) :
  ∀ prev rest,
    Re.match_here (map Re.TLit (list_ascii_of_string l) ++ ts) prev rest = true ↔
    ∃ post, rest = l +:+ post ∧ Re.match_here ts (Spec.last_char prev l) post = true.
Proof.
  induction l as [|c l IH]; intros prev rest; cbn [list_ascii_of_string map app Spec.last_char].
  - split; [intros H; now exists rest | intros [post [-> H]]; exact H].
  - cbn [Re.match_here]. destruct rest as [|d r].
    + split; [discriminate | intros [post [H _]]; discriminate].
    + rewrite andb_true_iff, IH. split.
      * intros [Hcd [post [-> H]]]. apply Ascii.eqb_eq in Hcd. subst d.
        now exists post.
      * intros [post [Heq H]]. sapp. injection Heq as -> ->.
        split; [apply Ascii.eqb_refl | now exists post].
Qed.

Lemma search_spec (ts : list Re.tok) (s : string) :
  ∀ prev,
    Re.search_from ts prev s = true ↔
    ∃ pre post, s = pre +:+ post ∧ Re.match_here ts (Spec.last_char prev pre) post = true.
Proof.
  induction s as [|d r IH]; intros prev; cbn [Re.search_from].
  - rewrite orb_false_r. split.
    + intros H. now exists "", "".
    + intros [[|x pre] [post [Heq H]]]; sapp; [|discriminate].
      subst post. exact H.
  - rewrite orb_true_iff, IH. split.
    + intros [H | [pre [post [-> H]]]].
      * now exists "", (String d r).
      * now exists (String d pre), post.
    + intros [[|x pre] [post [Heq H]]]; sapp.
      * left. subst post. exact H.
      * right. injection Heq as -> ->. now exists pre, post.
Qed.

Lemma search_bounded (l t : string) :
  Re.search_from (Re.TBoundary :: map Re.TLit (list_ascii_of_string l) ++ [Re.TBoundary])
    None t = true ↔ Spec.bounded_occurrence l t.
Proof.
  rewrite search_spec. unfold Spec.bounded_occurrence, Spec.bounded, Spec.boundary_between.
  split.
  - intros [pre [post [-> H]]]. cbn [Re.match_here] in H.
    apply andb_true_iff in H as [Hb1 H]. apply match_lits in H as [post' [-> H]].
    cbn [Re.match_here] in H. rewrite andb_true_r in H.
    exists pre, post'. rewrite last_char_app. auto.
  - intros [pre [post [-> [Hb1 Hb2]]]]. exists pre, (l +:+ post). split; [reflexivity|].
    cbn [Re.match_here]. rewrite Hb1. cbn [andb]. apply match_lits.
    exists post. split; [reflexivity|]. cbn [Re.match_here].
    rewrite last_char_app in Hb2. now rewrite Hb2.
Qed.

Lemma search_two_boundaries (t : string) :
  ∀ prev,
    Re.search_from [Re.TBoundary; Re.TBoundary] prev t =
    Re.word_opt prev || Spec.has_word t.
Proof.
  induction t as [|d r IH]; intros prev;
    cbn [Re.search_from Re.match_here Spec.has_word].
  - unfold Re.at_boundary. cbn [Re.head Re.word_opt].
    now destruct (Re.word_opt prev).
  - rewrite IH. unfold Re.at_boundary. cbn [Re.head Re.word_opt].
    now destruct (Re.word_opt prev), (Py.is_word d).
Qed.

(** ** The classifier, case by case *)

Lemma get_completeness_eq (T L : string) :
  get_completeness T L =
  Ok (if String.eqb (Py.lower T) (Py.lower L) then Complete
      else if Py.contains_char " " (Py.lower L) && Py.contains (Py.lower L) (Py.lower T)
      then Component
      else if Re.search_from
                (Re.TBoundary :: map Re.TLit (list_ascii_of_string (Py.lower L)) ++ [Re.TBoundary])
                None (Py.lower T)
      then Partial else Uninformative).
Proof.
  unfold get_completeness, Re.search. rewrite compile_pattern.
  destruct (String.eqb _ _); [reflexivity|].
  destruct (_ && _); [reflexivity|].
  now destruct (Re.search_from _ _ _).
Qed.

Lemma not_bounded_of_search (l t : string) :
  Re.search_from (Re.TBoundary :: map Re.TLit (list_ascii_of_string l) ++ [Re.TBoundary])
    None t = false →
  ∀ pre post, t = pre +:+ l +:+ post → ¬ Spec.bounded pre l post.
Proof.
  intros Hs pre post Heq Hb.
  assert (Spec.bounded_occurrence l t) as H by now exists pre, post.
  apply search_bounded in H. congruence.
Qed.

Lemma classified (T L : string) :
  ∃ c, get_completeness T L = Ok c ∧
       (c = Complete ∨ c = Component ∨ c = Partial ∨ c = Uninformative).
Proof.
  rewrite get_completeness_eq.
  destruct (String.eqb _ _); [eauto 6|].
  destruct (_ && _); [eauto 6|].
  destruct (Re.search_from _ _ _); eauto 6.
Qed.

(** ** Claims about the match classifier *)

(** C4. Whenever the term and the label are equal after lowercasing,
    [get_completeness] returns Complete. *)
Theorem complete_when_equal_ignoring_case (T L : string) :
  Py.lower T = Py.lower L → get_completeness T L = Ok Complete.
Proof.
  intros H. rewrite get_completeness_eq, H, String.eqb_refl. reflexivity.
Qed.

Lemma complete_when_equal_ignoring_case_witness :
  Py.lower "Aspirin" = Py.lower "aSPIRIN" ∧
  get_completeness "Aspirin" "aSPIRIN" = Ok Complete.
Proof.
  split; [reflexivity|].
  apply (complete_when_equal_ignoring_case "Aspirin" "aSPIRIN"). reflexivity.
Defined.

(** C1, as stated, fails: the label heart-attack has word boundaries inside
    it, occurs in the term and differs from it, yet it is classified Partial
    because it holds no space character. *)
Lemma component_needs_a_space :
  ¬ (∀ T L : string,
       Spec.internal_boundary L →
       Spec.occurs_in (Py.lower L) (Py.lower T) →
       Py.lower T ≠ Py.lower L →
       get_completeness T L = Ok Component).
Proof.
  intros H.
  specialize (H "heart-attack risk" "heart-attack").
  assert (get_completeness "heart-attack risk" "heart-attack" = Ok Partial) as Hp
    by reflexivity.
  rewrite Hp in H. discriminate H.
  - exists "heart", "-attack". repeat split; discriminate.
  - exists "", " risk". reflexivity.
  - discriminate.
Qed.

(** C1, amended. Every label that holds at least one space character, whose
    lowercased form occurs as a contiguous substring of the lowercased term
    and differs from it, is classified Component. *)
Theorem component_when_spaced_substring (T L : string) :
  Py.contains_char " " L = true →
  Spec.occurs_in (Py.lower L) (Py.lower T) →
  Py.lower T ≠ Py.lower L →
  get_completeness T L = Ok Component.
Proof.
  intros Hsp Hocc Hne. rewrite get_completeness_eq.
  apply String.eqb_neq in Hne. rewrite Hne.
  apply contains_spec in Hocc. now rewrite lower_contains_space, Hsp, Hocc.
Qed.

Lemma component_when_spaced_substring_witness :
  get_completeness "Acute Heart Attack risk" "heart attack" = Ok Component.
Proof.
  apply (component_when_spaced_substring "Acute Heart Attack risk" "heart attack").
  - reflexivity.
  - exists "acute ", " risk". reflexivity.
  - discriminate.
Defined.

(** C5. A label that occurs in the term bounded by word boundaries, differs
    from the term, and does not pass the Component test (a space in the label
    and the label a substring of the term) is classified Partial. *)
Theorem partial_when_bounded (T L : string) :
  Spec.bounded_occurrence (Py.lower L) (Py.lower T) →
  Py.lower T ≠ Py.lower L →
  ¬ (Py.contains_char " " (Py.lower L) = true ∧
     Spec.occurs_in (Py.lower L) (Py.lower T)) →
  get_completeness T L = Ok Partial.
Proof.
  intros Hb Hne Hnc. rewrite get_completeness_eq.
  apply String.eqb_neq in Hne. rewrite Hne.
  destruct (Py.contains_char " " (Py.lower L) && Py.contains (Py.lower L) (Py.lower T))
    eqn:Hc.
  - exfalso. apply Hnc. apply andb_true_iff in Hc as [H1 H2].
    split; [exact H1 | now apply contains_spec].
  - apply search_bounded in Hb. now rewrite Hb.
Qed.

Lemma partial_when_bounded_witness :
  get_completeness "Chest pain, acute" "PAIN" = Ok Partial.
Proof.
  apply (partial_when_bounded "Chest pain, acute" "PAIN").
  - exists "chest ", ", acute". repeat split.
  - discriminate.
  - intros [H _]. discriminate H.
Defined.

(** C6. A label without a space whose every occurrence in the term lies
    inside a larger word, and which differs from the term, gets the
    Uninformative value, the empty string; the driver then writes no row
    for a candidate carrying that label. *)
Theorem uninformative_when_inside_a_word (T L : string) :
  Py.contains_char " " L = false →
  Py.lower T ≠ Py.lower L →
  (∀ pre post, Py.lower T = pre +:+ Py.lower L +:+ post →
               ¬ Spec.bounded pre (Py.lower L) post) →
  get_completeness T L = Ok Uninformative ∧
  Uninformative = "" ∧
  ∀ o ont iri tr,
    handle_annotation o T ont (candidate (JStr L) iri) tr = (tr, Ok tt).
Proof.
  intros Hsp Hne Hin.
  assert (get_completeness T L = Ok Uninformative) as Hgc.
  { rewrite get_completeness_eq.
    apply String.eqb_neq in Hne. rewrite Hne.
    rewrite lower_contains_space, Hsp. cbn [andb].
    destruct (Re.search_from _ None (Py.lower T)) eqn:Hs; [|reflexivity].
    apply search_bounded in Hs as [pre [post [Heq Hb]]].
    exfalso. exact (Hin pre post Heq Hb). }
  split; [exact Hgc|]. split; [reflexivity|].
  intros o ont iri tr. unfold handle_annotation, candidate.
  unfold mbind, M_bind, lift. cbn. now rewrite Hgc.
Qed.

Lemma uninformative_when_inside_a_word_witness :
  get_completeness "painting" "Pain" = Ok Uninformative ∧
  handle_annotation default_options "painting" "MESH"
    (candidate (JStr "Pain") (JStr "http://x/9")) [] = ([], Ok tt).
Proof.
  destruct (uninformative_when_inside_a_word "painting" "Pain") as [H1 [_ H2]].
  - reflexivity.
  - discriminate.
  - apply not_bounded_of_search. reflexivity.
  - split; [exact H1 | apply H2].
Defined.

(** C10. [get_completeness] returns on every pair of strings: the pattern
    built from the escaped label always compiles, and the result is one of
    the four values. For the empty label it returns Complete when the term
    is empty too, Partial when the term holds a word character, and the
    Uninformative value otherwise. *)
Theorem get_completeness_total :
  (∀ T L, ∃ c, get_completeness T L = Ok c ∧
               (c = Complete ∨ c = Component ∨ c = Partial ∨ c = Uninformative)) ∧
  (∀ l, ∃ ts,
      Re.compile (String Re.backslash (String "b" (Re.escape l +:+ String Re.backslash "b")))
      = Ok ts) ∧
  (∀ T, get_completeness T "" =
        Ok (match T with
            | EmptyString => Complete
            | _ => if Spec.has_word T then Partial else Uninformative
            end)).
Proof.
  split; [exact classified|]. split.
  - intros l. rewrite compile_pattern. eauto.
  - intros T. rewrite get_completeness_eq.
    cbn [Py.lower Py.contains_char andb list_ascii_of_string map app].
    rewrite search_two_boundaries, lower_has_word. cbn [Re.word_opt orb].
    destruct T as [|c T]; reflexivity.
Qed.

(** ** Splitting and trimming *)

Lemma split_nonempty (sep : ascii) (s : string) : Py.split sep s ≠ [].
Proof.
  induction s as [|c r IH]; cbn [Py.split]; [discriminate|].
  destruct (Ascii.eqb c sep); [discriminate|].
  destruct (Py.split sep r); discriminate.
Qed.

Lemma join_split (sep : ascii) (s : string) : Spec.join sep (Py.split sep s) = s.
Proof.
  induction s as [|c r IH]; cbn [Py.split]; [reflexivity|].
  pose proof (split_nonempty sep r) as Hne.
  destruct (Ascii.eqb_spec c sep) as [->|Hc].
  - cbn [Spec.join]. destruct (Py.split sep r) as [|h t]; [congruence|].
    sapp. now rewrite IH.
  - destruct (Py.split sep r) as [|h t]; [congruence|].
    cbn [Spec.join] in *. destruct t; sapp; now rewrite <- IH.
Qed.

Lemma split_no_sep (sep : ascii) (s : string) :
  Forall (λ p, Py.contains_char sep p = false) (Py.split sep s).
Proof.
  induction s as [|c r IH]; cbn [Py.split].
  - repeat constructor.
  - destruct (Ascii.eqb_spec c sep) as [->|Hc].
    + constructor; [reflexivity | exact IH].
    + apply Ascii.eqb_neq in Hc. rewrite Ascii.eqb_sym in Hc.
      destruct (Py.split sep r) as [|h t].
      * repeat constructor. cbn [Py.contains_char]. now rewrite Hc.
      * inversion IH as [|? ? Hh Ht]; subst.
        constructor; [|assumption]. cbn [Py.contains_char]. now rewrite Hc.
Qed.

Lemma lstrip_spec (s : string) :
  ∃ a, s = a +:+ Py.lstrip s ∧ Spec.all_space a = true ∧
       Spec.space_opt (Re.head (Py.lstrip s)) = false.
Proof.
  induction s as [|c r IH]; cbn [Py.lstrip].
  - now exists "".
  - destruct (Py.is_space c) eqn:Hc.
    + destruct IH as [a [Heq [Ha Hh]]]. exists (String c a). sapp.
      cbn [Spec.all_space]. rewrite Hc, Ha. split; [now rewrite <- Heq | auto].
    + exists "". cbn [Re.head Spec.space_opt]. auto.
Qed.

Lemma rstrip_spec (s : string) :
  ∃ b, s = Py.rstrip s +:+ b ∧ Spec.all_space b = true ∧
       Spec.space_opt (Spec.last_char None (Py.rstrip s)) = false.
Proof.
  induction s as [|c r IH]; cbn [Py.rstrip].
  - now exists "".
  - destruct IH as [b [Heq [Hb Hl]]]. destruct (Py.rstrip r) as [|d r'] eqn:Hr.
    + sapp. subst b. destruct (Py.is_space c) eqn:Hc.
      * exists (String c r). cbn [Spec.all_space]. rewrite Hc, Hb. auto.
      * exists r. cbn [Spec.last_char Spec.space_opt]. auto.
    + exists b. sapp. rewrite <- Heq. auto.
Qed.

Lemma strip_spec (p : string) : Spec.trimmed_form p (Py.strip p).
Proof.
  unfold Spec.trimmed_form, Py.strip.
  destruct (lstrip_spec p) as [a [Hp [Ha Hh]]].
  destruct (rstrip_spec (Py.lstrip p)) as [b [Hq [Hb Hl]]].
  exists a, b. split; [|split; [exact Ha | split; [exact Hb | split; [|exact Hl]]]].
  - rewrite <- Hq. exact Hp.
  - destruct (Py.rstrip (Py.lstrip p)) as [|c q]; [reflexivity|].
    rewrite Hq in Hh. exact Hh.
Qed.

Lemma strip_pieces (l : list string) : Forall2 Spec.trimmed_form l (map Py.strip l).
Proof. induction l; constructor; [apply strip_spec | assumption]. Qed.

Lemma strip_then_drop (l : list string) :
  map Py.strip (filter (λ o, Is_true (Py.truthy (Py.strip o))) l) =
  filter (λ q, q ≠ "") (map Py.strip l).
Proof.
  induction l as [|x l IH]; [reflexivity|].
  cbn [map]. rewrite !filter_cons.
  destruct (Py.strip x) eqn:Hx; cbn [Py.truthy]; repeat case_decide;
    try (cbn [map]; rewrite ?Hx, IH; reflexivity);
    exfalso; cbn [Is_true] in *; try tauto; try congruence.
Qed.

(** ** Claim about the scope list *)

(** C8. [normalize_ontologies] cuts its argument at the commas, trims every
    piece, drops the pieces that are empty after trimming and keeps the order
    of the others; when nothing is left it returns the one-element list
    holding the empty string. It returns on every string and never the empty
    list. The three examples of the specification hold. *)
Theorem normalize_ontologies_spec :
  (∀ s, ∃ pieces trimmed,
      Spec.join "," pieces = s ∧
      Forall (λ p, Py.contains_char "," p = false) pieces ∧
      Forall2 Spec.trimmed_form pieces trimmed ∧
      normalize_ontologies s =
        match filter (λ q, q ≠ "") trimmed with
        | [] => [""]
        | kept => kept
        end ∧
      normalize_ontologies s ≠ []) ∧
  normalize_ontologies "" = [""] ∧
  normalize_ontologies ",  ," = [""] ∧
  normalize_ontologies " DOID, MESH " = ["DOID"; "MESH"].
Proof.
  split; [|repeat split; reflexivity].
  intros s. exists (Py.split "," s), (map Py.strip (Py.split "," s)).
  split; [apply join_split|]. split; [apply split_no_sep|].
  split; [apply strip_pieces|].
  unfold normalize_ontologies. rewrite strip_then_drop.
  split; [reflexivity|]. now destruct (filter _ _).
Qed.

(** ** Computations and their traces *)

Section Extends.

Import Trace.

Lemma extends_ret {A} (Q : list event → result A → Prop) (a : A) :
  Q [] (Ok a) → extends Q (mret a).
Proof. intros H tr. exists [], (Ok a). rewrite app_nil_r. auto. Qed.

Lemma extends_bind {A B} (Q1 : list event → result A → Prop)
    (Q2 Q : list event → result B → Prop) (m : M A) (f : A → M B) :
  extends Q1 m →
  (∀ a, extends Q2 (f a)) →
  (∀ evs1 a evs2 r2, Q1 evs1 (Ok a) → Q2 evs2 r2 → Q (evs1 ++ evs2) r2) →
  (∀ evs1 e, Q1 evs1 (Raise e) → Q evs1 (Raise e)) →
  extends Q (m ≫= f).
Proof.
  intros Hm Hf Hok Hraise tr. unfold mbind, M_bind.
  destruct (Hm tr) as [evs1 [r1 [Heq1 H1]]]. rewrite Heq1.
  destruct r1 as [a|e].
  - destruct (Hf a (tr ++ evs1)) as [evs2 [r2 [Heq2 H2]]].
    exists (evs1 ++ evs2), r2. rewrite Heq2, app_assoc. eauto.
  - exists evs1, (Raise e). eauto.
Qed.

Lemma extends_for_each {A} (Q : list event → result unit → Prop)
    (body : A → M unit) (l : list A) :
  (∀ x, x ∈ l → extends Q (body x)) →
  Q [] (Ok tt) →
  (∀ evs1 evs2 r2, Q evs1 (Ok tt) → Q evs2 r2 → Q (evs1 ++ evs2) r2) →
  extends Q (for_each body l).
Proof.
  intros Hbody Hnil Happ. induction l as [|x l IH]; cbn [for_each].
  - now apply extends_ret.
  - apply (extends_bind Q Q Q).
    + apply Hbody. left.
    + intros _. apply IH. intros y Hy. apply Hbody. now right.
    + intros evs1 [] evs2 r2. apply Happ.
    + auto.
Qed.

End Extends.

(** ** One item, one answer, one pair *)

Section Driver.

Import Trace.

Variable E : env.
Variable api_key : string.
Variable o : options.

Ltac innermost x :=
  lazymatch x with
  | context [match ?y with _ => _ end] => innermost y
  | _ => x
  end.

Ltac raises :=
  cbv iota beta;
  repeat (match goal with
          | |- context [match ?x with _ => _ end] =>
              let y := innermost x in destruct y
          end; cbv iota beta);
  match goal with H : ∀ e : exn, _ |- _ => apply H; tauto end.

Ltac one_row :=
  unfold row_of, good_row;
  cbn [row_completeness row_term row_ontology];
  repeat split; auto; intros; try discriminate; congruence.

Lemma handle_annotation_spec (term ont : string) (a : json) (tr : list event) :
  ∃ rows r,
    handle_annotation o term ont a tr = (tr ++ map EWriteRow rows, r) ∧
    Forall (row_of o term ont) rows ∧
    (if malformed a then ∃ e, r = Raise e ∧ lookup_exn e else r = Ok tt).
Proof.
  assert (∀ e, lookup_exn e →
            ∃ rows r, (tr, @Raise unit e) = (tr ++ map EWriteRow rows, r) ∧
                      Forall (row_of o term ont) rows ∧
                      ∃ e', r = Raise e' ∧ lookup_exn e') as Hraise.
  { intros e He. exists [], (Raise e). rewrite app_nil_r. eauto. }
  unfold handle_annotation, malformed, expected, mbind, M_bind, lift,
    Json.getitem, Json.getitem0, Json.as_str, lookup_exn in *.
  destruct a as [| | | |items|fields]; try raises.
  destruct (Json.dict_get "annotations" fields) as [anns|]; [|raises].
  destruct anns as [| | |s|[|first rest]|f]; try raises.
  destruct first as [| | | | |f0]; try raises.
  destruct (Json.dict_get "text" f0) as [label|]; [|raises].
  destruct (Json.dict_get "annotatedClass" fields) as [cls|];
    [|destruct label; raises].
  destruct cls as [| | | | |c]; try (destruct label; raises).
  destruct (Json.dict_get "@id" c) as [iri|]; [|destruct label; raises].
  destruct label as [| | |l| |]; try raises.
  destruct (classified term l) as [c' [Hgc Hc]]. rewrite Hgc.
  destruct Hc as [-> | [-> | [-> | ->]]];
    cbn [Py.truthy Complete Component Partial Uninformative negb].
  - exists [Row term l Complete (or_ALL ont) iri], (Ok tt).
    cbn. destruct (require_complete_match o); cbn;
      (split; [reflexivity|]); (split; [|reflexivity]);
      (constructor; [|constructor]); one_row.
  - destruct (require_complete_match o) eqn:Hr; cbn.
    + exists [], (Ok tt). rewrite app_nil_r. repeat split; constructor.
    + exists [Row term l Component (or_ALL ont) iri], (Ok tt).
      split; [reflexivity|]. split; [|reflexivity].
      constructor; [|constructor]. one_row.
  - destruct (require_complete_match o) eqn:Hr; cbn.
    + exists [], (Ok tt). rewrite app_nil_r. repeat split; constructor.
    + exists [Row term l Partial (or_ALL ont) iri], (Ok tt).
      split; [reflexivity|]. split; [|reflexivity].
      constructor; [|constructor]. one_row.
  - exists [], (Ok tt). rewrite app_nil_r. repeat split; constructor.
Qed.

Lemma items_spec (term ont : string) (items : list json) :
  ∀ tr, ∃ rows r,
    for_each (handle_annotation o term ont) items tr = (tr ++ map EWriteRow rows, r) ∧
    Forall (row_of o term ont) rows ∧
    (if existsb malformed items then ∃ e, r = Raise e ∧ lookup_exn e else r = Ok tt).
Proof.
  induction items as [|a items IH]; intros tr; cbn [for_each existsb].
  - exists [], (Ok tt). rewrite app_nil_r. repeat split. constructor.
  - unfold mbind, M_bind.
    destruct (handle_annotation_spec term ont a tr) as [rows1 [r1 [Heq1 [Hrows1 Hr1]]]].
    rewrite Heq1. destruct (malformed a); cbn [orb].
    + destruct Hr1 as [e [-> He]]. exists rows1, (Raise e). eauto.
    + subst r1.
      destruct (IH (tr ++ map EWriteRow rows1)) as [rows2 [r2 [Heq2 [Hrows2 Hr2]]]].
      exists (rows1 ++ rows2), r2. rewrite Heq2, map_app, app_assoc.
      split; [reflexivity|]. split; [|exact Hr2]. now apply Forall_app.
Qed.

Lemma rows_pair_events (term ont : string) (rows : list row) :
  Forall (row_of o term ont) rows →
  Forall (pair_event o term ont) (map EWriteRow rows).
Proof.
  induction 1 as [|r rows Hr _ IH]; cbn [map]; constructor; [|exact IH].
  left. eauto.
Qed.

Lemma build_params_ontologies (term ont : string) :
  build_params api_key term ont o !! "ontologies" =
  if Py.truthy ont then Some ont else None.
Proof.
  unfold build_params.
  destruct (direct_matches_only o), (Py.truthy ont); by simplify_map_eq.
Qed.

Lemma pair_spec (term ont : string) (tr : list event) :
  let params := build_params api_key term ont o in
  let g := EGet base_url params (timeout o)
             (service E tr base_url params (timeout o)) in
  ∃ evs r,
    annotate_pair E api_key o term ont tr = (tr ++ g :: evs, r) ∧
    Forall (pair_event o term ont) evs ∧
    (bad_get g = true →
     (∃ rows, evs = map EWriteRow rows) ∧ ∃ e, r = Raise e ∧ lookup_exn e).
Proof.
  intros params g. subst g. unfold annotate_pair, requests_get, mbind, M_bind.
  fold params. cbv zeta.
  assert (∀ evs, (tr ++ [EGet base_url params (timeout o)
                           (service E tr base_url params (timeout o))]) ++ evs =
                 tr ++ EGet base_url params (timeout o)
                         (service E tr base_url params (timeout o)) :: evs) as Hcons.
  { intros evs. now rewrite <- app_assoc. }
  destruct (service E tr base_url params (timeout o)) as [|status body].
  - exists [EWarn ConnectionFailure term (or_ALL ont)], (Ok tt). unfold emit.
    rewrite Hcons. split; [reflexivity|].
    split; [|discriminate]. constructor; [|constructor]. right. eauto.
  - cbn [bad_get]. destruct (is_error_status status).
    + exists [EWarn (HTTPError status) term (or_ALL ont)], (Ok tt). unfold emit.
      rewrite Hcons. split; [reflexivity|].
      split; [|destruct body as [[]|]; discriminate]. constructor; [|constructor]. right. eauto.
    + assert (∀ e, ∃ evs r,
                 (tr ++ [EGet base_url params (timeout o) (Response status body)],
                  @Raise unit e) =
                 (tr ++ EGet base_url params (timeout o) (Response status body) :: evs, r) ∧
                 Forall (pair_event o term ont) evs) as Hraise.
      { intros e. exists [], (Raise e). split; [reflexivity | constructor]. }
      assert (∀ items tr', ∃ evs r,
                 for_each (handle_annotation o term ont) items tr' = (tr' ++ evs, r) ∧
                 Forall (pair_event o term ont) evs) as Hloop.
      { intros items tr'.
        destruct (items_spec term ont items tr') as [rows [r [Heq [Hrows _]]]].
        exists (map EWriteRow rows), r. split; [exact Heq|].
        now apply rows_pair_events. }
      destruct body as [j|]; unfold lift.
      * destruct j as [| | |s|items|fields]; cbn [Json.iter];
          try (destruct (Hraise TypeError) as [evs [r [Heq Hevs]]];
               exists evs, r; rewrite Heq; split; [reflexivity|];
               split; [exact Hevs | discriminate]).
        -- destruct (Hloop (Json.chars s) (tr ++ [EGet base_url params (timeout o)
                        (Response status (Some (JStr s)))])) as [evs [r [Heq Hevs]]].
           exists evs, r. rewrite Heq, Hcons. split; [reflexivity|].
           split; [exact Hevs | discriminate].
        -- destruct (items_spec term ont items (tr ++ [EGet base_url params (timeout o)
                        (Response status (Some (JArr items)))]))
             as [rows [r [Heq [Hrows Hr]]]].
           exists (map EWriteRow rows), r. rewrite Heq, Hcons.
           split; [reflexivity|]. split; [now apply rows_pair_events|].
           cbn [negb andb]. intros Hbad. rewrite Hbad in Hr. eauto.
        -- destruct (Hloop (map (λ kv, JStr kv.1) fields)
                       (tr ++ [EGet base_url params (timeout o)
                        (Response status (Some (JObj fields)))])) as [evs [r [Heq Hevs]]].
           exists evs, r. rewrite Heq, Hcons. split; [reflexivity|].
           split; [exact Hevs | discriminate].
      * destruct (Hraise JSONDecodeError) as [evs [r [Heq Hevs]]].
        exists evs, r. rewrite Heq. split; [reflexivity|].
        split; [exact Hevs | discriminate].
Qed.

End Driver.

(** ** Traces that stop at a malformed answer *)

Section Stops.

Import Trace.

Lemma rows_clean (rows : list row) : clean (map EWriteRow rows).
Proof. induction rows; constructor; [reflexivity | assumption]. Qed.

Lemma clean_then_bad (sfx a b : list event) :
  clean a → ends_at_bad sfx b → ends_at_bad sfx (a ++ b).
Proof.
  intros Ha Hb. induction Ha as [|e a He _ IH]; cbn [app]; [exact Hb|].
  now apply bad_later.
Qed.

Lemma ends_at_bad_suffix (sfx evs : list event) :
  ends_at_bad [] evs → ends_at_bad sfx (evs ++ sfx).
Proof.
  induction 1 as [g rows Hg | e evs He _ IH].
  - rewrite app_nil_r. now apply (bad_here sfx g rows).
  - cbn [app]. now apply bad_later.
Qed.

Lemma after_bad (sfx l : list event) :
  ends_at_bad sfx l → clean sfx →
  ∀ pre g post, l = pre ++ g :: post → bad_get g = true →
                ∃ rows, post = map EWriteRow rows ++ sfx.
Proof.
  intros Hl Hsfx. induction Hl as [g0 rows Hg0 | e evs He _ IH];
    intros pre g post Heq Hg.
  - destruct pre as [|x pre]; cbn [app] in Heq.
    + injection Heq as _ <-. now exists rows.
    + injection Heq as _ Heq. exfalso.
      assert (clean (map EWriteRow rows ++ sfx)) as Hc
        by (apply Forall_app; split; [apply rows_clean | exact Hsfx]).
      rewrite Heq in Hc. apply Forall_app in Hc as [_ Hc].
      inversion Hc; congruence.
  - destruct pre as [|x pre]; cbn [app] in Heq.
    + injection Heq as <- _. congruence.
    + injection Heq as _ Heq. now apply (IH pre g post).
Qed.

Lemma stops_nil : @stops_at_bad unit [] [] (Ok tt).
Proof. left. constructor. Qed.

Lemma stops_app (evs1 evs2 : list event) (r2 : result unit) :
  stops_at_bad [] evs1 (Ok tt) → stops_at_bad [] evs2 r2 →
  stops_at_bad [] (evs1 ++ evs2) r2.
Proof.
  intros [H1 | [_ [e [He _]]]] H2; [|discriminate].
  destruct H2 as [H2 | [H2 He]].
  - left. now apply Forall_app.
  - right. split; [now apply clean_then_bad | exact He].
Qed.

End Stops.

(** ** Whole runs *)

Section Runs.

Import Trace.

Variable E : env.
Variables api_key term_path ontologies out_path : string.
Variable o : options.

Lemma pair_event_clean (term ont : string) (evs : list event) :
  Forall (pair_event o term ont) evs → clean evs.
Proof.
  induction 1 as [|e evs He _ IH]; constructor; [|exact IH].
  destruct He as [[r [-> _]] | [x ->]]; reflexivity.
Qed.

Lemma pair_event_rows (term ont : string) (evs : list event) :
  Forall (pair_event o term ont) evs → Forall (rows_are (good_row o)) evs.
Proof.
  induction 1 as [|e evs He _ IH]; constructor; [|exact IH].
  intros r ->. destruct He as [[r' [Heq Hr]] | [x Heq]]; [|discriminate].
  injection Heq as <-. apply Hr.
Qed.

Lemma pair_stops (term ont : string) :
  extends (stops_at_bad []) (annotate_pair E api_key o term ont).
Proof.
  intros tr. destruct (pair_spec E api_key o term ont tr) as [evs [r [Heq [Hevs Hbad]]]].
  cbv zeta in *.
  set (g := EGet _ _ _ _) in *. exists (g :: evs), r. split; [exact Heq|].
  destruct (bad_get g) eqn:Hg.
  - destruct (Hbad eq_refl) as [[rows ->] He]. right. split; [|exact He].
    rewrite <- (app_nil_r (map EWriteRow rows)). now apply bad_here.
  - left. constructor; [exact Hg | now apply (pair_event_clean term ont)].
Qed.

Lemma pair_rows (term ont : string) :
  extends (λ evs _, Forall (rows_are (good_row o)) evs)
          (annotate_pair E api_key o term ont).
Proof.
  intros tr. destruct (pair_spec E api_key o term ont tr) as [evs [r [Heq [Hevs _]]]].
  cbv zeta in *.
  set (g := EGet _ _ _ _) in *. exists (g :: evs), r. split; [exact Heq|].
  constructor; [intros r' H; discriminate | now apply (pair_event_rows term ont)].
Qed.

Lemma loops_extend (Q : list event → result unit → Prop)
    (terms onto_list : list string) :
  (∀ term ont, extends Q (annotate_pair E api_key o term ont)) →
  Q [] (Ok tt) →
  (∀ evs1 evs2 r2, Q evs1 (Ok tt) → Q evs2 r2 → Q (evs1 ++ evs2) r2) →
  extends Q (for_each (λ term, for_each (annotate_pair E api_key o term) onto_list)
                      terms).
Proof.
  intros Hpair Hnil Happ.
  apply extends_for_each; [|exact Hnil|exact Happ].
  intros term _. apply extends_for_each; [|exact Hnil|exact Happ].
  intros ont _. apply Hpair.
Qed.

(** The three ways a run can go. *)
Lemma run_shape (Q : list event → result unit → Prop) :
  (∀ term ont, extends Q (annotate_pair E api_key o term ont)) →
  Q [] (Ok tt) →
  (∀ evs1 evs2 r2, Q evs1 (Ok tt) → Q evs2 r2 → Q (evs1 ++ evs2) r2) →
  ∀ tr r,
    run (annotate_terms E api_key term_path ontologies out_path o) = (tr, r) →
    (tr = [] ∧ ∃ e, r = Raise e) ∨
    (∃ evs, Q evs (Ok tt) ∧ r = Ok tt ∧
            tr = EOpen out_path :: EWriteRow header :: evs ++
                 [EClose out_path; EPrint ("Results saved to " +:+ out_path)]) ∨
    (∃ evs e, Q evs (Raise e) ∧ r = Raise e ∧
              tr = EOpen out_path :: EWriteRow header :: evs ++ [EClose out_path]).
Proof.
  intros Hpair Hnil Happ tr r.
  unfold run, annotate_terms, mbind, M_bind, lift.
  destruct (load_terms (read_text E) term_path) as [terms|e];
    [|intros [= <- <-]; left; eauto].
  destruct terms as [|t terms]; [intros [= <- <-]; left; eauto|].
  unfold with_open. destruct (can_open E out_path);
    [|intros [= <- <-]; left; eauto].
  unfold emit at 1. cbn [app].
  destruct (loops_extend Q (t :: terms) (normalize_ontologies ontologies)
              Hpair Hnil Happ [EOpen out_path; EWriteRow header])
    as [evs [r' [Heq HQ]]].
  rewrite Heq. destruct r' as [[]|e]; intros [= <- <-]; right.
  - left. exists evs. unfold emit. cbn [app]. rewrite <- app_assoc. auto.
  - right. exists evs, e. auto.
Qed.

End Runs.

(** ** Claims about the annotation driver *)

Example classify_examples :
  get_completeness "painting" "pain" = Ok Uninformative ∧
  get_completeness "chest pain" "Pain" = Ok Partial ∧
  get_completeness "acute chest pain" "Chest Pain" = Ok Component ∧
  get_completeness "a (b) c" "(B)" = Ok Uninformative ∧
  get_completeness "c++ code" "C++" = Ok Uninformative ∧
  get_completeness "Flu" "flu" = Ok Complete.
Proof. repeat split; reflexivity. Qed.

Example splitlines_examples :
  Py.splitlines "" = [] ∧
  Py.splitlines "a
" = ["a"] ∧
  Py.splitlines (String "a" (String (ascii_of_nat 13) (String (ascii_of_nat 10) "b")))
    = ["a"; "b"] ∧
  Py.split "," "a,,b," = ["a"; ""; "b"; ""].
Proof. repeat split; reflexivity. Qed.

Example one_complete_row :
  run (annotate_terms (Sample.one_candidate "aspirin") "key" "terms.txt" "MESH"
         "out.csv" Sample.complete_only) =
    ([EOpen "out.csv"; EWriteRow header;
      EGet base_url (build_params "key" "aspirin" "MESH" Sample.complete_only) 30
           (Response 200 (Some (JArr [candidate (JStr "aspirin") (JStr "http://x/123")])));
      EWriteRow (Row "aspirin" "aspirin" "Complete" "MESH" (JStr "http://x/123"));
      EClose "out.csv"; EPrint "Results saved to out.csv"],
     Ok tt).
Proof. vm_compute. reflexivity. Qed.

Example no_row_for_a_fragment :
  run (annotate_terms (Sample.one_candidate "pirin") "key" "terms.txt" "MESH"
         "out.csv" default_options) =
    ([EOpen "out.csv"; EWriteRow header;
      EGet base_url (build_params "key" "aspirin" "MESH" default_options) 30
           (Response 200 (Some (JArr [candidate (JStr "pirin") (JStr "http://x/123")])));
      EClose "out.csv"; EPrint "Results saved to out.csv"],
     Ok tt).
Proof. vm_compute. reflexivity. Qed.

Example load_terms_example :
  load_terms (λ _, Some "Flu

  
Cold ") "terms.txt" = Ok ["Flu"; "Cold"].
Proof. reflexivity. Qed.

(** C9. For every pair of a term and a scope, the request carries no
    [ontologies] parameter when the scope is the empty string and carries the
    scope under that key otherwise; the rows written for the pair hold ALL in
    the Ontology column when the scope is the empty string, and the scope
    otherwise. *)
Theorem scope_parameter (E : env) (api_key : string) (o : options)
    (term ont : string) (tr : list event) :
  ∃ params answer evs r,
    annotate_pair E api_key o term ont tr =
      (tr ++ EGet base_url params (timeout o) answer :: evs, r) ∧
    params = build_params api_key term ont o ∧
    params !! "ontologies" = match ont with "" => None | _ => Some ont end ∧
    Forall (λ e, match e with
                 | EWriteRow row =>
                     row_ontology row = match ont with "" => "ALL" | _ => ont end
                 | EGet _ _ _ _ => False
                 | _ => True
                 end) evs.
Proof.
  destruct (pair_spec E api_key o term ont tr) as [evs [r [Heq [Hevs _]]]].
  cbv zeta in Heq.
  exists (build_params api_key term ont o),
         (service E tr base_url (build_params api_key term ont o) (timeout o)), evs, r.
  split; [exact Heq|]. split; [reflexivity|]. split.
  - rewrite build_params_ontologies. now destruct ont.
  - eapply Forall_impl; [exact Hevs|]. intros e He.
    destruct He as [[row [-> [_ [_ Hont]]]] | [x ->]]; [|exact I].
    rewrite Hont. now destruct ont.
Qed.

(** C7. When the loaded term list is empty the run raises at once the
    [ValueError] for empty input: its trace is empty, so no request was
    issued and the output file was neither opened nor written. *)
Theorem empty_input_fails_first (E : env)
    (api_key term_path ontologies out_path : string) (o : options) :
  load_terms (read_text E) term_path = Ok [] →
  run (annotate_terms E api_key term_path ontologies out_path o) =
    ([], Raise (ValueError "Input term list is empty.")).
Proof.
  intros H. unfold run, annotate_terms, mbind, M_bind, lift. now rewrite H.
Qed.

Lemma empty_input_fails_first_witness :
  load_terms (read_text Sample.blank) "terms.txt" = Ok [] ∧
  run (annotate_terms Sample.blank "key" "terms.txt" "DOID,MESH" "out.csv"
         default_options) =
    ([], Raise (ValueError "Input term list is empty.")).
Proof.
  split; [reflexivity|].
  apply (empty_input_fails_first Sample.blank "key" "terms.txt" "DOID,MESH" "out.csv"
           default_options).
  reflexivity.
Defined.

(** C3. In every run, whatever the terms, the scopes and the answers, the
    output starts with the header and every row written after it has a
    Completeness that is not empty, is not Uninformative and is one of
    Complete, Component, Partial; when [require_complete_match] is set it is
    Complete. *)
Theorem rows_are_informative (E : env)
    (api_key term_path ontologies out_path : string) (o : options) :
  let tr := (run (annotate_terms E api_key term_path ontologies out_path o)).1 in
  tr = [] ∨
  ∃ rest, tr = EOpen out_path :: EWriteRow header :: rest ∧
          Forall (Trace.rows_are (Trace.good_row o)) rest.
Proof.
  intros tr. subst tr.
  destruct (run (annotate_terms E api_key term_path ontologies out_path o))
    as [tr r] eqn:Hrun. cbn [fst].
  assert (Forall (Trace.rows_are (Trace.good_row o))
            [EClose out_path; EPrint ("Results saved to " +:+ out_path)]) as Hend
    by (repeat (constructor; [intros ? ?; discriminate|]); constructor).
  destruct (run_shape E api_key term_path ontologies out_path o
              (λ evs _, Forall (Trace.rows_are (Trace.good_row o)) evs)
              (pair_rows E api_key o) (Forall_nil_2 _)
              (λ evs1 evs2 _ H1 H2, proj2 (Forall_app _ evs1 evs2) (conj H1 H2))
              tr r Hrun)
    as [[-> _] | [[evs [Hevs [_ ->]]] | [evs [e [Hevs [_ ->]]]]]].
  - now left.
  - right. eexists. split; [reflexivity|]. now apply Forall_app.
  - right. eexists. split; [reflexivity|]. apply Forall_app. split; [exact Hevs|].
    repeat (constructor; [intros ? ?; discriminate|]); constructor.
Qed.

(** C2, as stated, fails. One term, two scopes, and a service that answers
    with an item without any field: the lookup raises [KeyError], the run
    ends there with the file closed, no warning is printed and the second
    scope is never requested. *)
Lemma malformed_answer_is_not_skipped :
  run (annotate_terms Sample.fieldless "key" "terms.txt" "DOID,MESH" "out.csv"
         default_options) =
    ([EOpen "out.csv"; EWriteRow header;
      EGet base_url (build_params "key" "flu" "DOID" default_options) 30
           (Response 200 (Some (JArr [JObj []])));
      EClose "out.csv"],
     Raise KeyError) ∧
  ¬ (∀ (E : env) (api_key term_path ontologies out_path : string) (o : options)
       tr r,
       run (annotate_terms E api_key term_path ontologies out_path o) = (tr, r) →
       ∀ pre g post, tr = pre ++ g :: post → Trace.bad_get g = true →
                     r = Ok tt ∧ ∃ x term ont post', post = EWarn x term ont :: post').
Proof.
  assert (run (annotate_terms Sample.fieldless "key" "terms.txt" "DOID,MESH" "out.csv"
                 default_options) =
          ([EOpen "out.csv"; EWriteRow header;
            EGet base_url (build_params "key" "flu" "DOID" default_options) 30
                 (Response 200 (Some (JArr [JObj []])));
            EClose "out.csv"],
           Raise KeyError)) as Hrun by (vm_compute; reflexivity).
  split; [exact Hrun|].
  intros H.
  destruct (H _ _ _ _ _ _ _ _ Hrun [EOpen "out.csv"; EWriteRow header] _ _ eq_refl eq_refl)
    as [Hr _].
  discriminate Hr.
Qed.

(** C2, amended. A success answer whose JSON array holds a malformed item is
    not handled as a failed request: the lookup raises [KeyError],
    [IndexError], [TypeError] or [AttributeError], nothing catches it, and
    the run ends with that exception. After that request the trace holds only
    the rows written for the items of that answer and the closing of the
    output file: no warning, no later request. *)
Theorem malformed_answer_aborts (E : env)
    (api_key term_path ontologies out_path : string) (o : options)
    (tr : list event) (r : result unit) :
  run (annotate_terms E api_key term_path ontologies out_path o) = (tr, r) →
  ∀ pre g post,
    tr = pre ++ g :: post → Trace.bad_get g = true →
    (∃ e, r = Raise e ∧ Trace.lookup_exn e) ∧
    ∃ rows, post = map EWriteRow rows ++ [EClose out_path].
Proof.
  intros Hrun pre g post Htr Hg.
  assert (∀ l : list event, Trace.clean l → l = pre ++ g :: post → False) as Hclean.
  { intros l Hl ->. apply Forall_app in Hl as [_ Hl]. inversion Hl; congruence. }
  destruct (run_shape E api_key term_path ontologies out_path o
              (Trace.stops_at_bad []) (pair_stops E api_key o) stops_nil stops_app
              tr r Hrun)
    as [[-> _] | [[evs [Hevs [_ Heq]]] | [evs [e [Hevs [-> Heq]]]]]].
  - destruct pre; discriminate Htr.
  - exfalso. destruct Hevs as [Hc | [_ [e [He _]]]]; [|discriminate].
    apply (Hclean tr); [|exact Htr]. rewrite Heq.
    repeat (constructor; [reflexivity|]). apply Forall_app. split; [exact Hc|].
    repeat constructor.
  - destruct Hevs as [Hc | [Hbad [e' [[= <-] He]]]].
    + exfalso. apply (Hclean tr); [|exact Htr]. rewrite Heq.
      repeat (constructor; [reflexivity|]). apply Forall_app. split; [exact Hc|].
      repeat constructor.
    + split; [eauto|].
      apply (after_bad [EClose out_path] tr) with (pre := pre) (g := g);
        [|repeat constructor|exact Htr|exact Hg].
      rewrite Heq. do 2 (apply Trace.bad_later; [reflexivity|]).
      now apply ends_at_bad_suffix.
Qed.

Lemma malformed_answer_aborts_witness :
  (∃ e, @Raise unit KeyError = Raise e ∧ Trace.lookup_exn e) ∧
  ∃ rows, [EClose "out.csv"] = map EWriteRow rows ++ [EClose "out.csv"].
Proof.
  apply (malformed_answer_aborts Sample.fieldless "key" "terms.txt" "DOID,MESH" "out.csv"
           default_options
           [EOpen "out.csv"; EWriteRow header;
            EGet base_url (build_params "key" "flu" "DOID" default_options) 30
                 (Response 200 (Some (JArr [JObj []])));
            EClose "out.csv"]
           (Raise KeyError))
    with (pre := [EOpen "out.csv"; EWriteRow header])
         (g := EGet base_url (build_params "key" "flu" "DOID" default_options) 30
                    (Response 200 (Some (JArr [JObj []])))).
  - vm_compute. reflexivity.
  - reflexivity.
  - reflexivity.
Defined.

(** * Further properties of the code *)

(** ** Trimming twice, joining and splitting *)

Lemma lstrip_clean (s : string) :
  Spec.space_opt (Re.head s) = false → Py.lstrip s = s.
Proof. destruct s as [|c r]; cbn; [reflexivity|]. now intros ->. Qed.

Lemma rstrip_clean (s : string) :
  Spec.space_opt (Spec.last_char None s) = false → Py.rstrip s = s.
Proof.
  induction s as [|c r IH]; [reflexivity|]. intros H. cbn [Py.rstrip].
  destruct r as [|d r'].
  - cbn in H |- *. now rewrite H.
  - rewrite IH; [reflexivity | exact H].
Qed.

Lemma strip_idempotent (p : string) : Py.strip (Py.strip p) = Py.strip p.
Proof.
  destruct (strip_spec p) as [a [b [_ [_ [_ [Hh Hl]]]]]].
  unfold Py.strip at 1. rewrite (lstrip_clean _ Hh). now apply rstrip_clean.
Qed.

Lemma contains_char_app (c : ascii) (a b : string) :
  Py.contains_char c (a +:+ b) = Py.contains_char c a || Py.contains_char c b.
Proof.
  induction a as [|x a IH]; sapp; cbn [Py.contains_char]; [reflexivity|].
  now rewrite IH, orb_assoc.
Qed.

Lemma strip_keeps_free (c : ascii) (p : string) :
  Py.contains_char c p = false → Py.contains_char c (Py.strip p) = false.
Proof.
  destruct (strip_spec p) as [a [b [Hp _]]]. intros H. rewrite Hp in H.
  rewrite !contains_char_app in H.
  apply orb_false_elim in H as [_ H]. now apply orb_false_elim in H as [H _].
Qed.

Lemma split_free (sep : ascii) (x : string) :
  Py.contains_char sep x = false → Py.split sep x = [x].
Proof.
  induction x as [|c x IH]; cbn [Py.contains_char Py.split]; [reflexivity|].
  intros H. apply orb_false_elim in H as [Hc Hx].
  rewrite Ascii.eqb_sym in Hc. rewrite Hc, (IH Hx). reflexivity.
Qed.

Lemma split_app_sep (sep : ascii) (x rest : string) :
  Py.contains_char sep x = false →
  Py.split sep (x +:+ String sep rest) = x :: Py.split sep rest.
Proof.
  induction x as [|c x IH]; sapp; cbn [Py.contains_char Py.split].
  - intros _. now rewrite Ascii.eqb_refl.
  - intros H. apply orb_false_elim in H as [Hc Hx].
    rewrite Ascii.eqb_sym in Hc. rewrite Hc, (IH Hx). reflexivity.
Qed.

Lemma split_join (sep : ascii) (l : list string) :
  l ≠ [] → Forall (λ x, Py.contains_char sep x = false) l →
  Py.split sep (Spec.join sep l) = l.
Proof.
  intros Hne Hl. induction Hl as [|x l Hx Hl IH]; [congruence|].
  cbn [Spec.join]. destruct l as [|y l].
  - now apply split_free.
  - rewrite (split_app_sep _ _ _ Hx). f_equal. apply IH. discriminate.
Qed.

Lemma kept_pieces_clean (sep : ascii) (l : list string) :
  Forall (λ x, Py.contains_char sep x = false) l →
  Forall (λ x, Py.contains_char sep x = false ∧ Py.strip x = x ∧ x ≠ "")
         (map Py.strip (filter (λ x, Is_true (Py.truthy (Py.strip x))) l)).
Proof.
  induction 1 as [|x l Hx _ IH]; [constructor|].
  rewrite filter_cons. case_decide as Hk; [|exact IH].
  cbn [map]. constructor; [|exact IH].
  split; [now apply strip_keeps_free|]. split; [apply strip_idempotent|].
  intros Heq. rewrite Heq in Hk. exact Hk.
Qed.

Lemma keep_all_clean (l : list string) :
  Forall (λ x, Py.strip x = x ∧ x ≠ "") l →
  map Py.strip (filter (λ x, Is_true (Py.truthy (Py.strip x))) l) = l.
Proof.
  induction 1 as [|x l [Hs Hne] _ IH]; [reflexivity|].
  rewrite filter_cons. case_decide as Hk.
  - cbn [map]. now rewrite Hs, IH.
  - exfalso. apply Hk. rewrite Hs. destruct x; [congruence | exact I].
Qed.

Lemma normalize_join (l : list string) :
  l ≠ [] →
  Forall (λ x, Py.contains_char "," x = false ∧ Py.strip x = x ∧ x ≠ "") l →
  normalize_ontologies (Spec.join "," l) = l.
Proof.
  intros Hne Hl. unfold normalize_ontologies.
  rewrite split_join; [|exact Hne|eapply Forall_impl; [exact Hl|]; cbv beta; intros; tauto].
  rewrite keep_all_clean; [|eapply Forall_impl; [exact Hl|]; cbv beta; intros; tauto].
  destruct l; congruence.
Qed.

(** ** Loading terms and normalising scopes *)


(** X2. Every scope returned by [normalize_ontologies] is free of commas
    and of surrounding whitespace; the result is the lone empty string, or
    holds no empty string at all. *)
Theorem normalize_ontologies_clean (s : string) :
  Forall (λ x, Py.contains_char "," x = false ∧ Py.strip x = x)
         (normalize_ontologies s) ∧
  (normalize_ontologies s = [""] ∨ Forall (λ x, x ≠ "") (normalize_ontologies s)).
Proof.
  unfold normalize_ontologies.
  pose proof (kept_pieces_clean "," _ (split_no_sep "," s)) as Hk.
  destruct (map Py.strip _) as [|x l].
  - split; [|now left]. repeat constructor.
  - split; [|right]; (eapply Forall_impl; [exact Hk|]); cbv beta; intros; tauto.
Qed.

(** X3. Normalising is idempotent through the comma-joined form: joining
    the result with commas and normalising again gives the same list. *)
Theorem normalize_ontologies_idempotent (s : string) :
  normalize_ontologies (Spec.join "," (normalize_ontologies s)) =
  normalize_ontologies s.
Proof.
  pose proof (kept_pieces_clean "," _ (split_no_sep "," s)) as Hk.
  unfold normalize_ontologies at 2 3.
  destruct (map Py.strip _) as [|x l]; [reflexivity|].
  now apply normalize_join.
Qed.

(** ** The classifier, read backwards *)

Lemma lower_char_idempotent (c : ascii) :
  Py.lower_char (Py.lower_char c) = Py.lower_char c.
Proof. by_cases_on_char c. Qed.

Lemma lower_idempotent (s : string) : Py.lower (Py.lower s) = Py.lower s.
Proof.
  induction s as [|c s IH]; cbn [Py.lower]; [reflexivity|].
  now rewrite lower_char_idempotent, IH.
Qed.

(** X4. The verdict of [get_completeness] tells how the label sits in the
    term, both taken in lowercase: Complete only if they are equal;
    Component only if they differ, the label holds a space and occurs in the
    term; Partial only if they differ and the label occurs in the term
    bounded by word boundaries without passing the Component test; the
    Uninformative value only if the label has no such bounded occurrence
    and does not pass the Component test either. *)
Theorem classification_sound (T L : string) :
  let spaced_substring :=
    Py.contains_char " " L = true ∧ Spec.occurs_in (Py.lower L) (Py.lower T) in
  ∃ c, get_completeness T L = Ok c ∧
    ((c = Complete ∧ Py.lower T = Py.lower L) ∨
     (c = Component ∧ Py.lower T ≠ Py.lower L ∧ spaced_substring) ∨
     (c = Partial ∧ Py.lower T ≠ Py.lower L ∧ ¬ spaced_substring ∧
      Spec.bounded_occurrence (Py.lower L) (Py.lower T)) ∨
     (c = Uninformative ∧ Py.lower T ≠ Py.lower L ∧ ¬ spaced_substring ∧
      ¬ Spec.bounded_occurrence (Py.lower L) (Py.lower T))).
Proof.
  cbv zeta. rewrite get_completeness_eq, lower_contains_space.
  destruct (String.eqb_spec (Py.lower T) (Py.lower L)) as [Heq|Hne].
  { exists Complete. auto. }
  destruct (Py.contains_char " " L && Py.contains (Py.lower L) (Py.lower T)) eqn:Hc.
  { exists Component. split; [reflexivity|]. right. left.
    apply andb_true_iff in Hc as [H1 H2]. apply contains_spec in H2. auto. }
  assert (¬ (Py.contains_char " " L = true ∧
             Spec.occurs_in (Py.lower L) (Py.lower T))) as Hn.
  { intros [H1 H2]. apply contains_spec in H2. now rewrite H1, H2 in Hc. }
  destruct (Re.search_from _ None (Py.lower T)) eqn:Hs.
  - exists Partial. split; [reflexivity|]. right. right. left.
    apply search_bounded in Hs. auto.
  - exists Uninformative. split; [reflexivity|]. do 3 right.
    repeat split; try assumption.
    intros Hb. apply search_bounded in Hb. congruence.
Qed.

(** X5. The verdict depends on the term and on the label only through
    their lowercase forms: two terms and two labels that agree in lowercase
    get the same verdict, and lowercasing both arguments first changes
    nothing. *)
Theorem classification_ignores_case (T L T' L' : string) :
  Py.lower T = Py.lower T' → Py.lower L = Py.lower L' →
  get_completeness T L = get_completeness T' L' ∧
  get_completeness (Py.lower T) (Py.lower L) = get_completeness T L.
Proof.
  intros HT HL. rewrite !get_completeness_eq, !lower_idempotent, HT, HL. auto.
Qed.

Lemma classification_ignores_case_witness :
  get_completeness "Flu Shot" "FLU" = get_completeness "FLU shot" "flu" ∧
  get_completeness (Py.lower "Flu Shot") (Py.lower "FLU") =
  get_completeness "Flu Shot" "FLU".
Proof.
  apply (classification_ignores_case "Flu Shot" "FLU" "FLU shot" "flu");
    reflexivity.
Defined.

(** ** Request parameters *)

(** X6. The request carries the key, the text and the three matching flags
    as lowercase booleans, the two hierarchy parameters exactly when
    [direct_matches_only] is set, the scope exactly when it is not the empty
    string, and nothing else. *)
Theorem build_params_keys (api_key term ont : string) (o : options) :
  let p := build_params api_key term ont o in
  p !! "apikey" = Some api_key ∧
  p !! "text" = Some term ∧
  p !! "exclude_synonyms" = Some (if include_synonyms o then "false" else "true") ∧
  p !! "whole_word_only" = Some (if whole_word_only o then "true" else "false") ∧
  p !! "longest_only" = Some (if longest_only o then "true" else "false") ∧
  p !! "ontologies" = (if Py.truthy ont then Some ont else None) ∧
  p !! "expand_class_hierarchy" =
    (if direct_matches_only o then Some "false" else None) ∧
  p !! "class_hierarchy_max_level" =
    (if direct_matches_only o then Some "0" else None) ∧
  size p = 5 + (if Py.truthy ont then 1 else 0)
             + (if direct_matches_only o then 2 else 0).
Proof.
  cbv zeta. unfold build_params, Py.str_bool_lower.
  destruct (direct_matches_only o), (Py.truthy ont),
    (include_synonyms o), (whole_word_only o), (longest_only o);
    cbn [negb]; repeat split; try (by simplify_map_eq);
    rewrite !map_size_insert_None by (by simplify_map_eq);
    now rewrite map_size_empty.
Qed.

(** ** One item, exactly *)

Ltac deepest x :=
  lazymatch x with
  | context [match ?y with _ => _ end] => deepest y
  | _ => x
  end.

Lemma handle_annotation_shaped (o : options) (term ont : string) (a : json)
    (l : string) (iri : json) (tr : list event) :
  Trace.expected a = Some (l, iri) →
  handle_annotation o term ont a tr =
  match get_completeness term l with
  | Ok c =>
      if Log.keeps o c
      then (tr ++ [EWriteRow (Row term l c (or_ALL ont) iri)], Ok tt)
      else (tr, Ok tt)
  | Raise e => (tr, Raise e)
  end.
Proof.
  intros H.
  unfold handle_annotation, mbind, M_bind, lift, Json.getitem, Json.getitem0,
    Json.as_str, Log.keeps.
  unfold Trace.expected in H.
  repeat match type of H with
         | context [match ?x with _ => _ end] => destruct x; try discriminate H
         end.
  injection H as -> ->.
  destruct (get_completeness term l) as [c|e]; [|reflexivity].
  destruct (Py.truthy c); cbn [negb andb]; [|reflexivity].
  destruct (require_complete_match o && negb (String.eqb c Complete)); reflexivity.
Qed.

Lemma handle_annotation_malformed (term ont : string) (a : json) :
  Trace.expected a = None →
  ∃ e, Trace.lookup_exn e ∧
       ∀ o tr, handle_annotation o term ont a tr = (tr, Raise e).
Proof.
  intros H.
  enough (∃ e, (∀ o tr, handle_annotation o term ont a tr = (tr, Raise e)) ∧
               Trace.lookup_exn e) as [e [H1 H2]] by eauto.
  unfold handle_annotation, mbind, M_bind, lift, Json.getitem, Json.getitem0,
    Json.as_str, Trace.lookup_exn.
  unfold Trace.expected in H.
  repeat (match goal with
          | |- context [match ?x with _ => _ end] =>
              let y := deepest x in destruct y; try discriminate H
          end; cbv iota beta in *);
    try discriminate H;
    (eexists; split; [intros o tr; reflexivity | tauto]).
Qed.

(** ** One pair, exactly *)

Lemma annotate_pair_unfold (E : env) (api_key : string) (o : options)
    (term ont : string) (tr : list event) :
  let params := build_params api_key term ont o in
  let answer := service E tr base_url params (timeout o) in
  let tr' := tr ++ [EGet base_url params (timeout o) answer] in
  annotate_pair E api_key o term ont tr =
  match answer with
  | Failed => (tr' ++ [EWarn ConnectionFailure term (or_ALL ont)], Ok tt)
  | Response status body =>
      if is_error_status status
      then (tr' ++ [EWarn (HTTPError status) term (or_ALL ont)], Ok tt)
      else
        match body with
        | None => (tr', Raise JSONDecodeError)
        | Some j =>
            match Json.iter j with
            | Ok items => for_each (handle_annotation o term ont) items tr'
            | Raise e => (tr', Raise e)
            end
        end
  end.
Proof.
  cbv zeta. unfold annotate_pair, requests_get, mbind, M_bind, lift, emit.
  destruct (service E tr base_url _ (timeout o)) as [|status body]; [reflexivity|].
  destruct (is_error_status status); [reflexivity|].
  destruct body as [j|]; [|reflexivity].
  destruct (Json.iter j); reflexivity.
Qed.

(** ** One answer, exactly *)

Lemma for_each_cons {A : Type} (body : A → M unit) (x : A) (l : list A)
    (tr : list event) :
  for_each body (x :: l) tr =
  match body x tr with
  | (tr', Ok _) => for_each body l tr'
  | (tr', Raise e) => (tr', Raise e)
  end.
Proof. reflexivity. Qed.

Lemma keeps_truthy (o : options) (c : string) :
  Log.keeps o c = true → c ≠ "".
Proof. unfold Log.keeps. destruct c; [discriminate | discriminate]. Qed.

Lemma items_rows (o : options) (term ont : string) (items : list json) :
  ∃ rows r,
    (∀ tr, for_each (handle_annotation o term ont) items tr =
           (tr ++ map EWriteRow rows, r)) ∧
    Forall (λ x, Log.row_from term ont x ∧ row_completeness x ≠ "") rows ∧
    length rows ≤ length items ∧
    (existsb Trace.malformed items = false → r = Ok tt).
Proof.
  induction items as [|a items [rows2 [r2 [Hrun [Hrows [Hlen Hok]]]]]].
  - exists [], (Ok tt). split; [|split; [constructor | split; [reflexivity | reflexivity]]].
    intros tr. cbn. now rewrite app_nil_r.
  - cbn [existsb]. unfold Trace.malformed at 1.
    destruct (Trace.expected a) as [[l iri]|] eqn:Ha.
    + destruct (classified term l) as [c [Hgc _]].
      destruct (Log.keeps o c) eqn:Hk.
      * exists (Row term l c (or_ALL ont) iri :: rows2), r2.
        split; [|split; [|split]].
        -- intros tr. rewrite for_each_cons, (handle_annotation_shaped _ _ _ _ l iri), Hgc, Hk by exact Ha.
           rewrite Hrun. cbn [map]. now rewrite <- app_assoc.
        -- constructor; [|exact Hrows]. split; [|now apply (keeps_truthy o)].
           repeat split. exact Hgc.
        -- cbn [length]. lia.
        -- exact Hok.
      * exists rows2, r2. split; [|split; [exact Hrows | split; [cbn [length]; lia | exact Hok]]].
        intros tr. rewrite for_each_cons, (handle_annotation_shaped _ _ _ _ l iri), Hgc, Hk by exact Ha.
        apply Hrun.
    + destruct (handle_annotation_malformed term ont a Ha) as [e [_ He]].
      exists [], (Raise e). split; [|split; [constructor | split; [cbn [length]; lia | discriminate]]].
      intros tr. rewrite for_each_cons, He. cbn. now rewrite app_nil_r.
Qed.

Lemma keeps_complete_only (o : options) (c : string) :
  Log.keeps (Log.with_complete_only o) c =
  Log.keeps o c && bool_decide (c = Complete).
Proof.
  unfold Log.keeps, Log.with_complete_only. cbn [require_complete_match].
  destruct (String.eqb_spec c Complete) as [->|Hne].
  - rewrite bool_decide_eq_true_2 by reflexivity.
    cbn. now destruct (require_complete_match o).
  - rewrite bool_decide_eq_false_2 by exact Hne.
    cbn. rewrite !andb_false_r. reflexivity.
Qed.

(** X12. [require_complete_match] is a filter on the rows of an answer and
    nothing more: with the flag set, the loop over the items of an answer
    writes exactly the rows it writes without the flag whose Completeness is
    Complete, in the same order, and ends the same way. *)
Theorem complete_only_is_a_filter (o : options) (term ont : string)
    (items : list json) :
  ∃ rows r, ∀ tr,
    for_each (handle_annotation o term ont) items tr =
      (tr ++ map EWriteRow rows, r) ∧
    for_each (handle_annotation (Log.with_complete_only o) term ont) items tr =
      (tr ++ map EWriteRow (filter (λ x, row_completeness x = Complete) rows), r).
Proof.
  induction items as [|a items [rows2 [r2 Hrun]]].
  - exists [], (Ok tt). intros tr. cbn. now rewrite app_nil_r.
  - destruct (Trace.expected a) as [[l iri]|] eqn:Ha.
    + destruct (classified term l) as [c [Hgc _]].
      destruct (Log.keeps o c) eqn:Hk.
      * exists (Row term l c (or_ALL ont) iri :: rows2), r2. intros tr.
        rewrite !for_each_cons, !(handle_annotation_shaped _ _ _ _ l iri) by exact Ha.
        rewrite Hgc, keeps_complete_only, Hk. cbn [andb].
        rewrite filter_cons. cbn [row_completeness]. split.
        -- destruct (Hrun (tr ++ [EWriteRow (Row term l c (or_ALL ont) iri)])) as [-> _].
           cbn [map]. now rewrite <- app_assoc.
        -- case_decide as Hc.
           ++ rewrite bool_decide_eq_true_2 by exact Hc.
              destruct (Hrun (tr ++ [EWriteRow (Row term l c (or_ALL ont) iri)])) as [_ ->].
              cbn [map]. now rewrite <- app_assoc.
           ++ rewrite bool_decide_eq_false_2 by exact Hc. apply Hrun.
      * exists rows2, r2. intros tr.
        rewrite !for_each_cons, !(handle_annotation_shaped _ _ _ _ l iri) by exact Ha.
        rewrite Hgc, keeps_complete_only, Hk. cbn [andb]. apply Hrun.
    + destruct (handle_annotation_malformed term ont a Ha) as [e [_ He]].
      exists [], (Raise e). intros tr. rewrite !for_each_cons, !He. cbn.
      now rewrite app_nil_r.
Qed.

(** ** Whole runs, exactly *)

Lemma run_cases (E : env) (api_key term_path ontologies out_path : string)
    (o : options) :
  run (annotate_terms E api_key term_path ontologies out_path o) =
  match load_terms (read_text E) term_path with
  | Raise e => ([], Raise e)
  | Ok [] => ([], Raise (ValueError "Input term list is empty."))
  | Ok terms =>
      if can_open E out_path then
        match for_each (λ term, for_each (annotate_pair E api_key o term)
                                         (normalize_ontologies ontologies))
                       terms [EOpen out_path; EWriteRow header] with
        | (tr', Ok _) =>
            (tr' ++ [EClose out_path; EPrint ("Results saved to " +:+ out_path)],
             Ok tt)
        | (tr', Raise e) => (tr' ++ [EClose out_path], Raise e)
        end
      else ([], Raise OSError)
  end.
Proof.
  unfold run, annotate_terms, mbind, M_bind, lift.
  destruct (load_terms (read_text E) term_path) as [[|t terms]|e]; try reflexivity.
  unfold with_open. destruct (can_open E out_path); [|reflexivity].
  unfold emit at 1. cbn [app].
  destruct (for_each _ (t :: terms) _) as [tr' [[]|e]]; [|reflexivity].
  unfold emit. now rewrite <- app_assoc.
Qed.

Lemma extends_mono {A} (Q Q' : list event → result A → Prop) (m : M A) :
  (∀ evs r, Q evs r → Q' evs r) → Trace.extends Q m → Trace.extends Q' m.
Proof.
  intros HQ Hm tr. destruct (Hm tr) as [evs [r [Heq H]]]. exists evs, r. auto.
Qed.







(** ** Further properties of runs *)





Lemma pair_kinds (E : env) (api_key : string) (o : options) (term ont : string) :
  Trace.extends (λ evs (_ : result unit), Forall Log.pair_kind evs)
                (annotate_pair E api_key o term ont).
Proof.
  intros tr. destruct (pair_spec E api_key o term ont tr) as [evs [r [Heq [Hevs _]]]].
  cbv zeta in Heq. eexists _, r. split; [exact Heq|].
  constructor; [exact I|]. eapply Forall_impl; [exact Hevs|].
  intros e [[x [-> _]] | [x ->]]; exact I.
Qed.

(** X7. Every run that gets as far as opening the output file writes the
    header first and closes the file, whether it returns or raises; between
    the two it only sends requests, writes rows and prints warnings; the
    confirmation is printed exactly when the run returns normally, as the
    last event. A run that does not open the file does nothing at all and
    raises. *)
Theorem run_exits (E : env) (api_key term_path ontologies out_path : string)
    (o : options) :
  let tr := (run (annotate_terms E api_key term_path ontologies out_path o)).1 in
  let r := (run (annotate_terms E api_key term_path ontologies out_path o)).2 in
  (tr = [] ∧ ∃ e, r = Raise e) ∨
  ∃ evs, Forall Log.pair_kind evs ∧
    ((r = Ok tt ∧
      tr = EOpen out_path :: EWriteRow header :: evs ++
           [EClose out_path; EPrint ("Results saved to " +:+ out_path)]) ∨
     (∃ e, r = Raise e ∧
           tr = EOpen out_path :: EWriteRow header :: evs ++ [EClose out_path])).
Proof.
  cbv zeta.
  destruct (run (annotate_terms E api_key term_path ontologies out_path o))
    as [tr r] eqn:Hrun. cbn [fst snd].
  destruct (run_shape E api_key term_path ontologies out_path o
              (λ evs _, Forall Log.pair_kind evs)
              (pair_kinds E api_key o) (Forall_nil_2 _)
              (λ evs1 evs2 _ H1 H2, proj2 (Forall_app _ evs1 evs2) (conj H1 H2))
              tr r Hrun)
    as [H | [[evs [Hevs [-> ->]]] | [evs [e [Hevs [-> ->]]]]]].
  - now left.
  - right. exists evs. auto.
  - right. exists evs. eauto.
Qed.


(** ** Where rows come from *)

Lemma sapp_empty_r (s : string) : s +:+ "" = s.
Proof. induction s as [|c s IH]; sapp; [reflexivity | now rewrite IH]. Qed.

Lemma verdict_occurs (T L c : string) :
  get_completeness T L = Ok c → c ≠ "" →
  Spec.occurs_in (Py.lower L) (Py.lower T).
Proof.
  rewrite get_completeness_eq. intros [= <-] Hc.
  destruct (String.eqb_spec (Py.lower T) (Py.lower L)) as [->|_].
  { exists "", "". sapp. now rewrite sapp_empty_r. }
  destruct (Py.contains_char " " (Py.lower L) && Py.contains (Py.lower L) (Py.lower T))
    eqn:Hcomp.
  { apply andb_true_iff in Hcomp as [_ H]. now apply contains_spec. }
  destruct (Re.search_from _ None (Py.lower T)) eqn:Hs; [|now contradict Hc].
  apply search_bounded in Hs as [pre [post [Heq _]]]. now exists pre, post.
Qed.

Lemma pair_rows_from (E : env) (api_key : string) (o : options) (term ont : string) :
  Trace.extends
    (λ evs (_ : result unit),
       Forall (Trace.rows_are (λ x, Log.row_from term ont x ∧ row_completeness x ≠ ""))
              evs)
    (annotate_pair E api_key o term ont).
Proof.
  intros tr. rewrite annotate_pair_unfold. cbv zeta.
  assert (∀ e : event, (∀ x, e ≠ EWriteRow x) →
            Trace.rows_are (λ x, Log.row_from term ont x ∧ row_completeness x ≠ "") e)
    as Hother by (intros e He x Hx; now destruct (He x)).
  assert (∀ items tr', ∃ evs r,
             for_each (handle_annotation o term ont) items tr' = (tr' ++ evs, r) ∧
             Forall (Trace.rows_are
                       (λ x, Log.row_from term ont x ∧ row_completeness x ≠ "")) evs)
    as Hitems.
  { intros items tr'. destruct (items_rows o term ont items) as [rows [r [Hrun [Hrows _]]]].
    exists (map EWriteRow rows), r. split; [apply Hrun|].
    clear Hrun. induction Hrows as [|x rows Hx _ IH]; constructor; [|exact IH].
    intros y [= <-]. exact Hx. }
  destruct (service E tr base_url _ (timeout o)) as [|status body].
  - eexists _, _. rewrite <- app_assoc. split; [reflexivity|].
    repeat (constructor; [apply Hother; discriminate|]). constructor.
  - destruct (is_error_status status).
    + eexists _, _. rewrite <- app_assoc. split; [reflexivity|].
      repeat (constructor; [apply Hother; discriminate|]). constructor.
    + destruct body as [j|].
      * destruct (Json.iter j) as [items|e].
        -- destruct (Hitems items (tr ++ [EGet base_url (build_params api_key term ont o)
                                             (timeout o) (Response status (Some j))]))
             as [evs [r [Heq Hevs]]].
           rewrite Heq, <- app_assoc. eexists _, r. split; [reflexivity|].
           constructor; [apply Hother; discriminate | exact Hevs].
        -- eexists _, _. split; [reflexivity|].
           repeat (constructor; [apply Hother; discriminate|]). constructor.
      * eexists _, _. split; [reflexivity|].
        repeat (constructor; [apply Hother; discriminate|]). constructor.
Qed.

(** X11. Every data row of every run comes from a pair the run went
    through: its Term is one of the loaded terms, its Ontology is one of the
    normalised scopes (ALL standing for the empty one), its Completeness is
    the verdict of [get_completeness] on its own Term and Match, and its
    Match occurs in its Term, both in lowercase. The header is the row at
    index 1 and the only row before the data rows. *)
Theorem row_provenance (E : env) (api_key term_path ontologies out_path : string)
    (o : options) (terms : list string) (tr : list event) (r : result unit) :
  load_terms (read_text E) term_path = Ok terms →
  run (annotate_terms E api_key term_path ontologies out_path o) = (tr, r) →
  ∀ (i : nat) (x : row),
    tr !! i = Some (EWriteRow x) →
    (i = 1 ∧ x = header) ∨
    (1 < i ∧
     row_term x ∈ terms ∧
     (∃ ont, ont ∈ normalize_ontologies ontologies ∧ row_ontology x = or_ALL ont) ∧
     get_completeness (row_term x) (row_match x) = Ok (row_completeness x) ∧
     Spec.occurs_in (Py.lower (row_match x)) (Py.lower (row_term x))).
Proof.
  intros Hload Hrun i x Hi.
  set (P := λ x : row,
         row_term x ∈ terms ∧
         (∃ ont, ont ∈ normalize_ontologies ontologies ∧ row_ontology x = or_ALL ont) ∧
         get_completeness (row_term x) (row_match x) = Ok (row_completeness x) ∧
         Spec.occurs_in (Py.lower (row_match x)) (Py.lower (row_term x))).
  assert (Trace.extends (λ evs (_ : result unit), Forall (Trace.rows_are P) evs)
            (for_each (λ term, for_each (annotate_pair E api_key o term)
                                        (normalize_ontologies ontologies)) terms))
    as Hloops.
  { apply extends_for_each;
      [|constructor|intros ? ? ? H1 H2; apply Forall_app; auto].
    intros term Hterm. apply extends_for_each;
      [|constructor|intros ? ? ? H1 H2; apply Forall_app; auto].
    intros ont Hont. eapply extends_mono; [|apply pair_rows_from].
    intros evs r0 Hevs. eapply Forall_impl; [exact Hevs|].
    intros e He y Hy. destruct (He y Hy) as [[Ht [Ho Hg]] Hc].
    subst term. unfold P. split; [exact Hterm|]. split; [eauto|].
    split; [exact Hg|]. now apply (verdict_occurs _ _ (row_completeness y)). }
  rewrite run_cases, Hload in Hrun.
  destruct terms as [|t terms]; [injection Hrun as <- _; discriminate Hi|].
  destruct (can_open E out_path); [|injection Hrun as <- _; discriminate Hi].
  destruct (Hloops [EOpen out_path; EWriteRow header]) as [evs [r' [Heq Hevs]]].
  rewrite Heq in Hrun.
  assert (∃ tail, tr = EOpen out_path :: EWriteRow header :: evs ++ tail ∧
                  Forall (Trace.rows_are P) tail) as [tail [-> Htail]].
  { destruct r' as [[]|e]; injection Hrun as <- _; cbn [app];
      eexists; (split; [reflexivity|]);
      repeat (constructor; [intros ? ?; discriminate|]); constructor. }
  destruct i as [|[|i]]; cbn in Hi.
  - discriminate Hi.
  - injection Hi as <-. now left.
  - right. split; [lia|].
    apply list_elem_of_lookup_2 in Hi.
    assert (Forall (Trace.rows_are P) (evs ++ tail)) as Hall
      by (apply Forall_app; auto).
    rewrite Forall_forall in Hall. exact (Hall _ Hi x eq_refl).
Qed.

Lemma row_provenance_witness :
  (3 = 1 ∧ Row "aspirin" "Aspirin" "Complete" "MESH" (JStr "http://x/123") = header) ∨
  (1 < 3 ∧
   "aspirin" ∈ ["aspirin"] ∧
   (∃ ont, ont ∈ normalize_ontologies "MESH" ∧ "MESH" = or_ALL ont) ∧
   get_completeness "aspirin" "Aspirin" = Ok "Complete" ∧
   Spec.occurs_in (Py.lower "Aspirin") (Py.lower "aspirin")).
Proof.
  apply (row_provenance (Sample.one_candidate "Aspirin") "key" "terms.txt" "MESH"
           "out.csv" default_options ["aspirin"]
           [EOpen "out.csv"; EWriteRow header;
            EGet base_url (build_params "key" "aspirin" "MESH" default_options) 30
                 (Response 200 (Some (JArr [candidate (JStr "Aspirin")
                                                      (JStr "http://x/123")])));
            EWriteRow (Row "aspirin" "Aspirin" "Complete" "MESH" (JStr "http://x/123"));
            EClose "out.csv"; EPrint "Results saved to out.csv"]
           (Ok tt) eq_refl)
    with (i := 3)
         (x := Row "aspirin" "Aspirin" "Complete" "MESH" (JStr "http://x/123")).
  - vm_compute. reflexivity.
  - reflexivity.
Defined.
